(** * Android log streams: a model of [Lib/_android_support.py]

    [TextLogStream] turns text written by a Python program into records of
    the Android log; [BinaryLogStream] hands one block of bytes to the
    platform call [android_log_write].  The development below embeds both
    classes as state-passing functions and proves the properties their
    description states.

    Conventions of the embedding:
    - a [str] is the list of its code points, a [bytes] object the list of
      its bytes, Python integers are [Z];
    - a method of an object is a computation in the monad [M], which threads
      the mutable state and may end in a raised exception; mutations done
      before the exception stay, as in Python;
    - the platform callback is an arbitrary deterministic callable: whether
      it raises is a function of the calls made so far and of its arguments;
      every call is recorded, in order, in a [trace];
    - the re-entrant lock of [TextLogStream] guards against other threads
      only and is not modelled: one thread runs the methods;
    - [str.encode], [str.splitlines] and the buffer protocol are Python
      built-ins; the codec is a parameter ([Codec]), instantiated by a model
      of the UTF-8 codec for the concrete scenarios. *)

From Stdlib Require Import String Ascii.
From Stdlib Require Import List ZArith NArith Lia Bool.
From Stdlib Require Import DecimalString.
From Stdlib.Strings Require Import Byte.
Import ListNotations.
Local Open Scope Z_scope.

(** ** Python values *)

Definition char := N.
Definition str := list char.
Definition bytes := list byte.

(** [len(x)] for sequences. *)
Definition len {A : Type} (l : list A) : Z := Z.of_nat (length l).

(** [x[:n]] and [x[n:]] for a non-negative [n]. *)
Definition slice_to {A : Type} (n : Z) (l : list A) : list A :=
  firstn (Z.to_nat n) l.
Definition slice_from {A : Type} (n : Z) (l : list A) : list A :=
  skipn (Z.to_nat n) l.

(** The objects a caller may pass to [write]. *)
Inductive pyobj : Type :=
| PyStr (s : str)
| PyStrSubclass (cls : string) (s : str)
| PyBytes (b : bytes)
| PyBytesSubclass (cls : string) (b : bytes)
| PyByteArray (b : bytes)
| PyMemoryView (b : bytes)
| PyNone
| PyInt (z : Z).

(** [type(o).__name__] *)
Definition type_name (o : pyobj) : string :=
  match o with
  | PyStr _ => "str"
  | PyStrSubclass cls _ => cls
  | PyBytes _ => "bytes"
  | PyBytesSubclass cls _ => cls
  | PyByteArray _ => "bytearray"
  | PyMemoryView _ => "memoryview"
  | PyNone => "NoneType"
  | PyInt _ => "int"
  end.

(** [isinstance(o, str)] *)
Definition isinstance_str (o : pyobj) : bool :=
  match o with
  | PyStr _ | PyStrSubclass _ _ => true
  | _ => false
  end.

(** [str.__str__(o)] for an instance of [str]: its plain text value. *)
Definition str___str__ (o : pyobj) : str :=
  match o with
  | PyStr s | PyStrSubclass _ s => s
  | _ => []
  end.

(** ** Exceptions and the state monad *)

Inductive exn : Type :=
| TypeError (msg : string)
| UnicodeEncodeError (codec : string) (c : char)
| LookupError (msg : string)
| OtherError (cls : string) (msg : string)
| LoopFuelExhausted.

Inductive res (A : Type) : Type :=
| Ok (a : A)
| Raise (e : exn).
Arguments Ok {A} a.
Arguments Raise {A} e.

Definition M (S A : Type) : Type := S -> res A * S.

Definition ret {S A : Type} (a : A) : M S A := fun s => (Ok a, s).
Definition raise {S A : Type} (e : exn) : M S A := fun s => (Raise e, s).
Definition bind {S A B : Type} (m : M S A) (k : A -> M S B) : M S B :=
  fun s =>
    match m s with
    | (Ok a, s') => k a s'
    | (Raise e, s') => (Raise e, s')
    end.
Definition get {S : Type} : M S S := fun s => (Ok s, s).
Definition modify {S : Type} (f : S -> S) : M S unit := fun s => (Ok tt, f s).
Definition lift_res {S A : Type} (r : res A) : M S A := fun s => (r, s).

Declare Scope monad_scope.
Delimit Scope monad_scope with monad.
Notation "x <- m ;; k" := (bind m (fun x => k))
  (at level 61, m at next level, right associativity) : monad_scope.
Notation "m ;; k" := (bind m (fun _ => k))
  (at level 61, right associativity) : monad_scope.
Local Open Scope monad_scope.

(** [for x in xs: body(x)] *)
Fixpoint for_each {S A : Type} (xs : list A) (body : A -> M S unit) : M S unit :=
  match xs with
  | [] => ret tt
  | x :: xs' => body x ;; for_each xs' body
  end.

(** ** Built-ins used by the module *)

(** Modelled from the spec: the buffer protocol is the interpreter's, not
    the module's.  [bytes(memoryview(o))] gives the flat bytes of an object
    that "can be viewed as a flat byte sequence" and raises a [TypeError]
    for another. *)
Definition bytes_of_memoryview (o : pyobj) : res bytes :=
  match o with
  | PyBytes b | PyBytesSubclass _ b | PyByteArray b | PyMemoryView b => Ok b
  | _ =>
      Raise (TypeError
        (String.append "memoryview: a bytes-like object is required, not '"
           (String.append (type_name o) "'")))
  end.

(** [b.replace(old, new)] for a one-byte [old]. *)
Definition bytes_replace (old : byte) (new : bytes) (b : bytes) : bytes :=
  flat_map (fun x => if Byte.eqb x old then new else [x]) b.

(** [b"".join(blocks)] *)
Definition bytes_join (blocks : list bytes) : bytes := concat blocks.

(** [b.endswith(suffix)] for a one-byte [suffix]. *)
Definition endswith (b : bytes) (suffix : byte) : bool :=
  match rev b with
  | [] => false
  | x :: _ => Byte.eqb x suffix
  end.

(** Modelled from the spec: [str.splitlines] is a built-in of the
    interpreter.  It ends a line at LF, VT, FF, CR, FS, GS, RS, NEL, LINE
    SEPARATOR and PARAGRAPH SEPARATOR; CR LF counts as one boundary. *)
Definition LF : char := 10%N.
Definition CR : char := 13%N.

Definition is_linebreak (c : char) : bool :=
  existsb (N.eqb c) [10; 11; 12; 13; 28; 29; 30; 133; 8232; 8233]%N.

(** Modelled from the spec: [s.splitlines(keepends=True)], the built-in
    that cuts the text into lines, "each segment retaining its own line
    terminator", none for the empty text; [cur] holds the characters of the
    line being read, last one first. *)
Fixpoint splitlines_from (cur : str) (s : str) : list str :=
  match s with
  | [] =>
      match cur with
      | [] => []
      | _ :: _ => [rev cur]
      end
  | c :: rest =>
      if N.eqb c CR then
        match rest with
        | d :: rest' =>
            if N.eqb d LF
            then rev (d :: c :: cur) :: splitlines_from [] rest'
            else rev (c :: cur) :: splitlines_from [] rest
        | [] => [rev (c :: cur)]
        end
      else if is_linebreak c then rev (c :: cur) :: splitlines_from [] rest
      else splitlines_from (c :: cur) rest
  end.

Definition splitlines_keepends (s : str) : list str := splitlines_from [] s.

(** The codec machinery, [s.encode(encoding, errors)], is the
    interpreter's: a parameter of the methods that encode. *)
Class Codec : Type := str_encode : string -> string -> str -> res bytes.

(** ** The platform log *)

Record log_call : Type := LogCall {
  call_prio : Z;
  call_tag : string;
  call_msg : bytes
}.

(** The calls made to the platform so far, oldest first. *)
Definition trace := list log_call.

Definition MAX_BYTES_PER_WRITE : Z := 4000.
Definition MAX_CHARS_PER_WRITE : Z := MAX_BYTES_PER_WRITE / 4.

(** ** class BinaryLogStream *)

Module BinaryLogStream.

Record t : Type := Make {
  android_log_write : trace -> Z -> string -> bytes -> option exn;
  prio : Z;
  tag : string
}.

Definition writable (self : t) : bool := true.

(** One call of the callback: it is recorded, and raises when the callback
    does. *)
Definition call_android_log_write (self : t) (p : Z) (tg : string)
    (msg : bytes) : M trace unit :=
  fun tr =>
    (match android_log_write self tr p tg msg with
     | None => Ok tt
     | Some e => Raise e
     end,
     tr ++ [LogCall p tg msg]).

Definition write (self : t) (b : pyobj) : M trace Z :=
  b <- (match b with
        | PyBytes v => ret v
        | _ =>
            match bytes_of_memoryview b with
            | Ok v => ret v
            | Raise (TypeError _) =>
                raise (TypeError
                  (String.append "write() argument must be bytes-like, not "
                     (type_name b)))
            | Raise e => raise e
            end
        end) ;;
  (match b with
   | _ :: _ =>
       call_android_log_write self (prio self) (tag self)
         (bytes_replace x00 [xc0; x80] b)
   | [] => ret tt
   end) ;;
  ret (len b).

End BinaryLogStream.

(** ** class TextLogStream *)

Module TextLogStream.

Record t : Type := Make {
  buffer : BinaryLogStream.t;
  encoding : string;
  errors : string;
  write_through : bool;
  _pending_bytes : list bytes;
  _pending_bytes_count : Z
}.

(** The state a method runs in: the stream object and the platform log. *)
Definition world : Type := t * trace.

Definition get_self : M world t := fun w => (Ok (fst w), w).
Definition modify_self (f : t -> t) : M world unit :=
  fun w => (Ok tt, (f (fst w), snd w)).
(** A method of the underlying binary stream, run on the platform log. *)
Definition on_buffer {A : Type} (m : M trace A) : M world A :=
  fun w => let (r, tr) := m (snd w) in (r, (fst w, tr)).

Definition set_pending_bytes (v : list bytes) (self : t) : t :=
  Make (buffer self) (encoding self) (errors self) (write_through self)
       v (_pending_bytes_count self).
Definition set_pending_bytes_count (v : Z) (self : t) : t :=
  Make (buffer self) (encoding self) (errors self) (write_through self)
       (_pending_bytes self) v.

(** [TextLogStream(android_log_write, prio, tag, **kwargs)]: the encoding
    defaults to UTF-8; [TextIOWrapper] defaults [errors] to strict and
    [write_through] to false. *)
Definition __init__
    (android_log_write : trace -> Z -> string -> bytes -> option exn)
    (prio : Z) (tag : string)
    (kw_encoding kw_errors : option string) (kw_write_through : option bool)
    : t :=
  Make (BinaryLogStream.Make android_log_write prio tag)
       (match kw_encoding with Some e => e | None => "UTF-8"%string end)
       (match kw_errors with Some e => e | None => "strict"%string end)
       (match kw_write_through with Some w => w | None => false end)
       [] 0.

Definition flush : M world unit :=
  self <- get_self ;;
  on_buffer (BinaryLogStream.write (buffer self)
               (PyBytes (bytes_join (_pending_bytes self)))) ;;
  modify_self (set_pending_bytes []) ;;
  modify_self (set_pending_bytes_count 0).

Definition _write_chunk `{Codec} (s : str) : M world unit :=
  self <- get_self ;;
  b <- lift_res (str_encode (encoding self) (errors self) s) ;;
  (if _pending_bytes_count self + len b >? MAX_BYTES_PER_WRITE
   then flush else ret tt) ;;
  modify_self (fun self => set_pending_bytes (_pending_bytes self ++ [b]) self) ;;
  modify_self (fun self =>
    set_pending_bytes_count (_pending_bytes_count self + len b) self) ;;
  self <- get_self ;;
  if write_through self
     || endswith b x0a
     || (_pending_bytes_count self >? MAX_BYTES_PER_WRITE)
  then flush else ret tt.

(** [while line: ...]: each round removes at least one character, so
    [length line] rounds are enough. *)
Fixpoint while_line `{Codec} (fuel : nat) (line : str) : M world unit :=
  match line with
  | [] => ret tt
  | _ :: _ =>
      match fuel with
      | O => raise LoopFuelExhausted
      | S fuel' =>
          let chunk := slice_to MAX_CHARS_PER_WRITE line in
          let line := slice_from MAX_CHARS_PER_WRITE line in
          _write_chunk chunk ;; while_line fuel' line
      end
  end.

Definition write `{Codec} (s : pyobj) : M world Z :=
  if negb (isinstance_str s) then
    raise (TypeError
      (String.append "write() argument must be str, not " (type_name s)))
  else
    let s := str___str__ s in
    for_each (splitlines_keepends s)
      (fun line => while_line (length line) line) ;;
    ret (len s).

Definition line_buffering (self : t) : bool := true.

End TextLogStream.

(** ** A model of Python's UTF-8 codec

    [str.encode] is a built-in of the interpreter.  The concrete scenarios
    need the UTF-8 codec, modelled here after its documentation: one to four
    bytes per code point; the surrogates U+D800..U+DFFF cannot be encoded and
    go to the error handler named by [errors]. *)

Definition byte_of_N (n : N) : byte :=
  match Byte.of_N n with
  | Some b => b
  | None => x00
  end.

Definition is_surrogate (c : char) : bool :=
  ((0xD800 <=? c) && (c <=? 0xDFFF))%N.

Definition utf8_bytes (c : char) : bytes :=
  (if c <? 0x80 then [byte_of_N c]
   else if c <? 0x800 then
     [byte_of_N (N.lor 0xC0 (N.shiftr c 6));
      byte_of_N (N.lor 0x80 (N.land c 0x3F))]
   else if c <? 0x10000 then
     [byte_of_N (N.lor 0xE0 (N.shiftr c 12));
      byte_of_N (N.lor 0x80 (N.land (N.shiftr c 6) 0x3F));
      byte_of_N (N.lor 0x80 (N.land c 0x3F))]
   else
     [byte_of_N (N.lor 0xF0 (N.land (N.shiftr c 18) 0x07));
      byte_of_N (N.lor 0x80 (N.land (N.shiftr c 12) 0x3F));
      byte_of_N (N.lor 0x80 (N.land (N.shiftr c 6) 0x3F));
      byte_of_N (N.lor 0x80 (N.land c 0x3F))])%N.

Definition hex_digit (n : N) : byte :=
  nth (N.to_nat n) (list_byte_of_string "0123456789abcdef") x00.

(** The escape [\uXXXX] of a code point below U+10000. *)
Definition backslash_u (c : char) : bytes :=
  [x5c; x75;
   hex_digit (N.land (N.shiftr c 12) 15); hex_digit (N.land (N.shiftr c 8) 15);
   hex_digit (N.land (N.shiftr c 4) 15); hex_digit (N.land c 15)].

(** The character reference [&#N;] with [N] in decimal. *)
Definition xmlcharref (c : char) : bytes :=
  list_byte_of_string "&#"
    ++ list_byte_of_string (NilEmpty.string_of_uint (N.to_uint c))
    ++ list_byte_of_string ";".

(** Modelled from the spec: the error handlers are the interpreter's; what
    the handler named [errors] makes of the surrogate [c]. *)
Definition utf8_surrogate (errors : string) (c : char) : res bytes :=
  if String.eqb errors "strict" then Raise (UnicodeEncodeError "utf-8" c)
  else if String.eqb errors "ignore" then Ok []
  else if String.eqb errors "replace" then Ok [x3f]
  else if String.eqb errors "backslashreplace" then Ok (backslash_u c)
  else if String.eqb errors "namereplace" then Ok (backslash_u c)
  else if String.eqb errors "xmlcharrefreplace" then Ok (xmlcharref c)
  else if String.eqb errors "surrogatepass" then Ok (utf8_bytes c)
  else if String.eqb errors "surrogateescape" then
    if ((0xDC80 <=? c) && (c <=? 0xDCFF))%N
    then Ok [byte_of_N (c - 0xDC00)%N]
    else Raise (UnicodeEncodeError "utf-8" c)
  else
    Raise (LookupError
      (String.append "unknown error handler name '" (String.append errors "'"))).

Definition utf8_encode_char (errors : string) (c : char) : res bytes :=
  if is_surrogate c then utf8_surrogate errors c else Ok (utf8_bytes c).

Fixpoint utf8_encode (errors : string) (s : str) : res bytes :=
  match s with
  | [] => Ok []
  | c :: s' =>
      match utf8_encode_char errors c with
      | Raise e => Raise e
      | Ok b =>
          match utf8_encode errors s' with
          | Raise e => Raise e
          | Ok bs => Ok (b ++ bs)
          end
      end
  end.

Definition is_utf8_name (encoding : string) : bool :=
  existsb (String.eqb encoding) ["UTF-8"; "utf-8"; "UTF8"; "utf8"; "utf_8"]%string.

(** Modelled from the spec: [str.encode] of the interpreter, for the UTF-8
    encoding that a stream takes by default; another name is answered like
    an unknown one. *)
#[export] Instance python_codec : Codec :=
  fun encoding errors s =>
    if is_utf8_name encoding then utf8_encode errors s
    else Raise (LookupError (String.append "unknown encoding: " encoding)).

(** ** Literals of the scenarios *)

(** The text of an ASCII literal. *)
Definition str_of_string (s : string) : str :=
  map N_of_ascii (list_ascii_of_string s).

(** [x * n] for sequences. *)
Definition seq_mul {A : Type} (x : list A) (n : nat) : list A :=
  concat (repeat x n).

(** A callback that never raises. *)
Definition quiet_log_write : trace -> Z -> string -> bytes -> option exn :=
  fun _ _ _ _ => None.

(** A callback that raises on its first call and accepts the later ones. *)
Definition flaky_log_write : trace -> Z -> string -> bytes -> option exn :=
  fun tr _ _ _ =>
    match tr with
    | [] => Some (OtherError "OSError" "log device unavailable")
    | _ :: _ => None
    end.

Definition ANDROID_LOG_INFO : Z := 4.

(** [sys.stdout] as [init_streams] installs it, with the given [errors]. *)
Definition stdout_stream (errors : string) : TextLogStream.t :=
  TextLogStream.__init__ quiet_log_write ANDROID_LOG_INFO "python.stdout"
    None (Some errors) None.

(** ** Specification vocabulary *)

(** [hoare P m Q]: started in a state satisfying [P], the computation [m]
    ends with a result and a state related by [Q]. *)
Definition hoare {S A : Type} (P : S -> Prop) (m : M S A)
    (Q : res A -> S -> Prop) : Prop :=
  forall s, P s -> Q (fst (m s)) (snd (m s)).

(** The sum of the lengths of the blocks of a pending buffer. *)
Definition sum_len (blocks : list bytes) : Z :=
  fold_right (fun b acc => len b + acc) 0 blocks.

(** The invariant of the pending buffer. *)
Definition pending_count_ok (self : TextLogStream.t) : Prop :=
  TextLogStream._pending_bytes_count self
  = sum_len (TextLogStream._pending_bytes self).

(** What a caller can do with a text stream. *)
Inductive op : Type :=
| OpWrite (o : pyobj)
| OpFlush.

(** One operation; the caller goes on whether or not it raised. *)
Definition run_op `{Codec} (o : op) (w : TextLogStream.world)
    : TextLogStream.world :=
  match o with
  | OpWrite x => snd (TextLogStream.write x w)
  | OpFlush => snd (TextLogStream.flush w)
  end.

Definition run_ops `{Codec} (ops : list op) (w : TextLogStream.world)
    : TextLogStream.world :=
  fold_left (fun w o => run_op o w) ops w.

(** The stream with its pending buffer emptied. *)
Definition cleared (self : TextLogStream.t) : TextLogStream.t :=
  TextLogStream.set_pending_bytes_count 0
    (TextLogStream.set_pending_bytes [] self).

(** The payload the platform receives for the block [b]. *)
Definition escaped (b : bytes) : bytes := bytes_replace x00 [xc0; x80] b.

(** The record the binary stream [self] logs for the block [b]. *)
Definition record_of (self : BinaryLogStream.t) (b : bytes) : log_call :=
  LogCall (BinaryLogStream.prio self) (BinaryLogStream.tag self) (escaped b).

(** The stream after [_write_chunk] has put the block [b] in the pending
    buffer. *)
Definition appended (b : bytes) (self : TextLogStream.t) : TextLogStream.t :=
  TextLogStream.set_pending_bytes_count
    (TextLogStream._pending_bytes_count self + len b)
    (TextLogStream.set_pending_bytes
       (TextLogStream._pending_bytes self ++ [b]) self).

(** [c] is a run of consecutive elements of [s]. *)
Definition segment {A : Type} (c s : list A) : Prop :=
  exists pre post, s = pre ++ c ++ post.

(** The configuration of a stream: what [write] and [flush] never change. *)
Definition same_config (self self' : TextLogStream.t) : Prop :=
  TextLogStream.buffer self' = TextLogStream.buffer self
  /\ TextLogStream.encoding self' = TextLogStream.encoding self
  /\ TextLogStream.errors self' = TextLogStream.errors self
  /\ TextLogStream.write_through self' = TextLogStream.write_through self.

(** The stream of the state [w] is configured as [self0] is. *)
Definition configured_as (self0 : TextLogStream.t) (w : TextLogStream.world)
    : Prop :=
  same_config self0 (fst w).

(** The codec encodes every part of [s] under the settings of [self]. *)
Definition encodes_parts `{Codec} (self : TextLogStream.t) (s : str) : Prop :=
  forall c, segment c s ->
    exists b,
      str_encode (TextLogStream.encoding self) (TextLogStream.errors self) c
      = Ok b.

(** The platform callback of [self] accepts every call. *)
Definition platform_accepts (self : TextLogStream.t) : Prop :=
  forall tr p tg msg,
    BinaryLogStream.android_log_write (TextLogStream.buffer self) tr p tg msg
    = None.

(** ** Texts, newlines and records *)



(** [x] put in front of the first piece, or of the rest when no piece is
    complete. *)
Definition push_char (x : char) (cut : list str * str) : list str * str :=
  match fst cut with
  | [] => ([], x :: snd cut)
  | p :: ps => ((x :: p) :: ps, snd cut)
  end.

(** A text cut after each LF: the pieces that end in LF, in order, and the
    rest, which follows the last LF. *)
Fixpoint lf_pieces (t : str) : list str * str :=
  match t with
  | [] => ([], [])
  | x :: t' =>
      if N.eqb x LF then ([x] :: fst (lf_pieces t'), snd (lf_pieces t'))
      else push_char x (lf_pieces t')
  end.

(** LF occurs in [l] at its end only. *)
Definition lf_only_last (l : str) : Prop :=
  forall pre post, l = pre ++ LF :: post -> post = [].

(** The stream has taken the text [done] since its pending buffer was empty
    and the platform log was [tr0]: the complete pieces of [done] are logged,
    one record each, and the rest is pending.  [enc1] gives the bytes of one
    character. *)
Definition tracks (enc1 : char -> bytes) (self0 : TextLogStream.t)
    (tr0 : trace) (done : str) (w : TextLogStream.world) : Prop :=
  same_config self0 (fst w)
  /\ pending_count_ok (fst w)
  /\ bytes_join (TextLogStream._pending_bytes (fst w))
     = flat_map enc1 (snd (lf_pieces done))
  /\ snd w
     = tr0 ++ map (fun p => record_of (TextLogStream.buffer self0)
                              (flat_map enc1 p))
                (fst (lf_pieces done)).

(** What is pending after [done], with the bytes of [todo], fits in one
    record. *)
Definition within_limit (enc1 : char -> bytes) (done todo : str) : Prop :=
  len (flat_map enc1 (snd (lf_pieces done))) + len (flat_map enc1 todo)
  <= MAX_BYTES_PER_WRITE.

(** The payload of the call is the escape of a block of at most
    [MAX_BYTES_PER_WRITE] bytes. *)
Definition block_within_limit (c : log_call) : Prop :=
  exists b, call_msg c = escaped b /\ len b <= MAX_BYTES_PER_WRITE.

(** The pending bytes fit in one record, and so did every block logged. *)
Definition bounded (self0 : TextLogStream.t) (w : TextLogStream.world)
    : Prop :=
  same_config self0 (fst w)
  /\ pending_count_ok (fst w)
  /\ TextLogStream._pending_bytes_count (fst w) <= MAX_BYTES_PER_WRITE
  /\ Forall block_within_limit (snd w).

(** ** The module [sys] and [init_streams] *)

(** What [sys.stdout] or [sys.stderr] holds: [None], the stream the
    interpreter started with, of which only [errors] is read, or a stream of
    this module. *)
Inductive std_stream : Type :=
| NoStream
| HostStream (errors : string)
| LogStream (stream : TextLogStream.t).

(** The attributes of [sys] that [init_streams] reads and assigns. *)
Record sys_module : Type := Sys {
  executable : option string;
  stdout : std_stream;
  stderr : std_stream
}.

Definition set_stdout (v : std_stream) (sys : sys_module) : sys_module :=
  Sys (executable sys) v (stderr sys).
Definition set_stderr (v : std_stream) (sys : sys_module) : sys_module :=
  Sys (executable sys) (stdout sys) v.

(** The truth value of [sys.executable]: [None] and the empty string are
    false. *)
Definition truthy (x : option string) : bool :=
  match x with
  | Some (String _ _) => true
  | _ => false
  end.

(** [stream.errors] *)
Definition stream_errors (s : std_stream) : res string :=
  match s with
  | NoStream =>
      Raise (OtherError "AttributeError"
               "'NoneType' object has no attribute 'errors'")
  | HostStream errors => Ok errors
  | LogStream stream => Ok (TextLogStream.errors stream)
  end.

Definition init_streams
    (android_log_write : trace -> Z -> string -> bytes -> option exn)
    (stdout_prio stderr_prio : Z) : M sys_module unit :=
  sys <- get ;;
  if truthy (executable sys) then ret tt
  else
    errors <- lift_res (stream_errors (stdout sys)) ;;
    modify (set_stdout
              (LogStream
                 (TextLogStream.__init__ android_log_write stdout_prio
                    "python.stdout" None (Some errors) None))) ;;
    sys <- get ;;
    errors <- lift_res (stream_errors (stderr sys)) ;;
    modify (set_stderr
              (LogStream
                 (TextLogStream.__init__ android_log_write stderr_prio
                    "python.stderr" None (Some errors) None))).

(** ** More specification vocabulary *)

(** A call as the binary stream [sink] makes them: its priority, its tag,
    and a payload that is not empty and holds no NUL byte. *)
Definition call_of_sink (sink : BinaryLogStream.t) (c : log_call) : Prop :=
  call_prio c = BinaryLogStream.prio sink
  /\ call_tag c = BinaryLogStream.tag sink
  /\ call_msg c <> []
  /\ ~ In x00 (call_msg c).

(** The stream has nothing pending. *)
Definition idle (self : TextLogStream.t) : Prop :=
  TextLogStream._pending_bytes self = []
  /\ TextLogStream._pending_bytes_count self = 0.

(** The stream is configured as [self0], and the log is [tr0] followed by
    calls of the sink of [self0]. *)
Definition logs_from (self0 : TextLogStream.t) (tr0 : trace)
    (w : TextLogStream.world) : Prop :=
  same_config self0 (fst w)
  /\ exists added,
       snd w = tr0 ++ added
       /\ Forall (call_of_sink (TextLogStream.buffer self0)) added.

(** The stream writes through, or the text ends in LF: the bytes of [c],
    once in the pending buffer, are flushed. *)
Definition flushes_after (self0 : TextLogStream.t) (c : str) : Prop :=
  TextLogStream.write_through self0 = true \/ exists c', c = c' ++ [LF].

(** Since the log was [tr0] and the bytes [pending0] were pending, the bytes
    [sent] came into the pending buffer: the blocks logged since, none of
    them empty, followed by what is pending, are [pending0] followed by
    [sent]. *)
Definition carries (self0 : TextLogStream.t) (tr0 : trace)
    (pending0 sent : bytes) (w : TextLogStream.world) : Prop :=
  same_config self0 (fst w)
  /\ exists blocks,
       snd w = tr0 ++ map (record_of (TextLogStream.buffer self0)) blocks
       /\ Forall (fun b => b <> []) blocks
       /\ bytes_join blocks
            ++ bytes_join (TextLogStream._pending_bytes (fst w))
          = pending0 ++ sent.

(** When the result [r] is an exception, the platform raised it on the last
    call of the log of [w]. *)
Definition failed_on_last_call {A : Type} (self0 : TextLogStream.t)
    (r : res A) (w : TextLogStream.world) : Prop :=
  match r with
  | Ok _ => True
  | Raise e =>
      exists tr' c,
        snd w = tr' ++ [c]
        /\ BinaryLogStream.android_log_write (TextLogStream.buffer self0) tr'
             (call_prio c) (call_tag c) (call_msg c)
           = Some e
  end.

(** ** Chunks and what a stream that writes through logs *)

(** The chunks the loop of [write] takes from a line, in order: the first
    [MAX_CHARS_PER_WRITE] characters, then those of what is left, with the
    fuel of [while_line]. *)
Fixpoint line_chunks (fuel : nat) (line : str) : list str :=
  match line with
  | [] => []
  | _ :: _ =>
      match fuel with
      | O => []
      | S fuel' =>
          slice_to MAX_CHARS_PER_WRITE line
          :: line_chunks fuel' (slice_from MAX_CHARS_PER_WRITE line)
      end
  end.

(** The chunks [write] hands to [_write_chunk] for the text [s], in order:
    those of its lines. *)
Definition write_chunks (s : str) : list str :=
  flat_map (fun line => line_chunks (length line) line)
    (splitlines_keepends s).

(** The codec gives the bytes [b] for the chunk [c] under the settings of
    [self]. *)
Definition encoded_as `{Codec} (self : TextLogStream.t) (c : str) (b : bytes)
    : Prop :=
  str_encode (TextLogStream.encoding self) (TextLogStream.errors self) c
  = Ok b.

(** The record [flush] logs for the block [b]: none for an empty block. *)
Definition block_record (sink : BinaryLogStream.t) (b : bytes) : trace :=
  match b with
  | [] => []
  | _ :: _ => [record_of sink b]
  end.

(** The records a flush right after each append gives for a chunk with the
    bytes [b]: the pending bytes and [b] in one record; or, when together
    they would pass [MAX_BYTES_PER_WRITE], the pending bytes first and then
    [b] on its own. *)
Definition through_records (self : TextLogStream.t) (b : bytes) : trace :=
  let sink := TextLogStream.buffer self in
  let pending := bytes_join (TextLogStream._pending_bytes self) in
  if TextLogStream._pending_bytes_count self + len b >? MAX_BYTES_PER_WRITE
  then block_record sink pending ++ block_record sink b
  else block_record sink (pending ++ b).

(** ** Units of a text and the size limits *)












(** ** The grouping of a text into records

    What [_write_chunk] decides depends on the number of bytes pending and
    on the bytes of the chunk only.  The text taken so far is cut into
    groups, one for each record logged, and the pending text [u]: a state is
    the pair of the groups and [u].  The bytes [pending0] that were pending
    at the start go with the first group. *)









(** ** Streams and logs of the scenarios *)




(** * Properties *)

(** ** Reasoning about computations in [M] *)

Section Hoare.

Context {S : Type}.

Lemma hoare_ret {A : Type} (P : S -> Prop) (a : A) (Q : res A -> S -> Prop) :
  (forall s, P s -> Q (Ok a) s) -> hoare P (ret a) Q.
Proof. intros HQ s Hs. exact (HQ s Hs). Qed.

Lemma hoare_raise {A : Type} (P : S -> Prop) (e : exn) (Q : res A -> S -> Prop) :
  (forall s, P s -> Q (Raise e) s) -> hoare P (raise e) Q.
Proof. intros HQ s Hs. exact (HQ s Hs). Qed.

Lemma hoare_bind {A B : Type} (P : S -> Prop) (m : M S A) (k : A -> M S B)
    (Q1 : res A -> S -> Prop) (Q : res B -> S -> Prop) :
  hoare P m Q1 ->
  (forall a, hoare (Q1 (Ok a)) (k a) Q) ->
  (forall e s, Q1 (Raise e) s -> Q (Raise e) s) ->
  hoare P (bind m k) Q.
Proof.
  intros Hm Hk He s Hs. specialize (Hm s Hs). unfold bind.
  destruct (m s) as [[a | e] s']; simpl in *.
  - exact (Hk a s' Hm).
  - exact (He e s' Hm).
Qed.

Lemma hoare_conseq {A : Type} (P P' : S -> Prop) (m : M S A)
    (Q Q' : res A -> S -> Prop) :
  hoare P' m Q' ->
  (forall s, P s -> P' s) ->
  (forall r s, Q' r s -> Q r s) ->
  hoare P m Q.
Proof. intros Hm HP HQ s Hs. apply HQ, Hm, HP, Hs. Qed.

(** A loop keeps an invariant that each round keeps, whatever its outcome. *)
Lemma hoare_for_each_inv {A : Type} (I : S -> Prop) (xs : list A)
    (body : A -> M S unit) :
  (forall x, In x xs -> hoare I (body x) (fun _ s => I s)) ->
  hoare I (for_each xs body) (fun _ s => I s).
Proof.
  induction xs as [| x xs IH]; intros Hbody; simpl.
  - apply hoare_ret. auto.
  - apply hoare_bind with (Q1 := fun _ s => I s).
    + apply Hbody. now left.
    + intros a. apply IH. intros y Hy. apply Hbody. now right.
    + auto.
Qed.

(** A loop whose rounds all return, returns. *)
Lemma hoare_for_each_ok {A : Type} (I : S -> Prop) (xs : list A)
    (body : A -> M S unit) :
  (forall x, In x xs -> hoare I (body x) (fun r s => r = Ok tt /\ I s)) ->
  hoare I (for_each xs body) (fun r s => r = Ok tt /\ I s).
Proof.
  induction xs as [| x xs IH]; intros Hbody; simpl.
  - apply hoare_ret. auto.
  - apply hoare_bind with (Q1 := fun r s => r = Ok tt /\ I s).
    + apply Hbody. now left.
    + intros a. eapply hoare_conseq.
      * apply IH. intros y Hy. apply Hbody. now right.
      * intros s [_ Hs]. exact Hs.
      * auto.
    + intros e s [Habs _]. discriminate.
Qed.

End Hoare.

(** ** Lists, lengths and slices *)

Lemma len_app {A : Type} (l1 l2 : list A) : len (l1 ++ l2) = len l1 + len l2.
Proof. unfold len. rewrite length_app. lia. Qed.

Lemma len_nonneg {A : Type} (l : list A) : 0 <= len l.
Proof. unfold len. lia. Qed.

Lemma slice_to_from {A : Type} (n : Z) (l : list A) :
  slice_to n l ++ slice_from n l = l.
Proof. apply firstn_skipn. Qed.

Lemma len_slice_to {A : Type} (n : Z) (l : list A) :
  0 <= n -> len (slice_to n l) <= n.
Proof.
  intros Hn. unfold len, slice_to. rewrite length_firstn. lia.
Qed.

Lemma length_slice_from {A : Type} (l : list A) :
  l <> [] ->
  (length (slice_from MAX_CHARS_PER_WRITE l) < length l)%nat.
Proof.
  intros Hl. unfold slice_from. rewrite length_skipn.
  destruct l as [| x l]; [congruence |].
  change (Z.to_nat MAX_CHARS_PER_WRITE) with 1000%nat. simpl length. lia.
Qed.

Lemma sum_len_app (l1 l2 : list bytes) :
  sum_len (l1 ++ l2) = sum_len l1 + sum_len l2.
Proof. induction l1 as [| b l1 IH]; simpl; lia. Qed.

Lemma len_bytes_join (blocks : list bytes) :
  len (bytes_join blocks) = sum_len blocks.
Proof.
  induction blocks as [| b blocks IH]; simpl.
  - reflexivity.
  - rewrite len_app, IH. reflexivity.
Qed.

(** ** BinaryLogStream.write *)

(** What [write] does with a [bytes] object. *)
Lemma binary_write_bytes (self : BinaryLogStream.t) (b : bytes) (tr : trace) :
  BinaryLogStream.write self (PyBytes b) tr =
  match b with
  | [] => (Ok 0, tr)
  | _ :: _ =>
      (match BinaryLogStream.android_log_write self tr
               (BinaryLogStream.prio self) (BinaryLogStream.tag self)
               (escaped b) with
       | None => Ok (len b)
       | Some e => Raise e
       end,
       tr ++ [record_of self b])
  end.
Proof.
  destruct b as [| x b]; [reflexivity |].
  unfold BinaryLogStream.write, BinaryLogStream.call_android_log_write,
    bind, ret, record_of, escaped.
  destruct (BinaryLogStream.android_log_write self tr _ _ _); reflexivity.
Qed.

(** Another bytes-like object is first copied into a [bytes] object. *)
Lemma binary_write_view (self : BinaryLogStream.t) (o : pyobj) (b : bytes)
    (tr : trace) :
  bytes_of_memoryview o = Ok b ->
  BinaryLogStream.write self o tr = BinaryLogStream.write self (PyBytes b) tr.
Proof.
  intros Hview.
  destruct o; simpl in Hview; try discriminate;
    injection Hview as ->; reflexivity.
Qed.

(** C3: a non-empty bytes-like [o] with content [b] causes exactly one call
    of the platform, with the priority and tag of the stream and with [b]
    where each byte 0x00 is replaced by 0xC0 0x80; unless that call raises,
    [write] returns the length of [b] as it was before the replacement. *)
Theorem binary_write_one_escaped_call
    (self : BinaryLogStream.t) (o : pyobj) (b : bytes) (tr : trace) :
  bytes_of_memoryview o = Ok b ->
  b <> [] ->
  snd (BinaryLogStream.write self o tr)
  = tr ++ [LogCall (BinaryLogStream.prio self) (BinaryLogStream.tag self)
             (bytes_replace x00 [xc0; x80] b)]
  /\ (BinaryLogStream.android_log_write self tr
        (BinaryLogStream.prio self) (BinaryLogStream.tag self)
        (bytes_replace x00 [xc0; x80] b) = None ->
      fst (BinaryLogStream.write self o tr) = Ok (len b)).
Proof.
  intros Hview Hne.
  rewrite (binary_write_view self o b tr Hview), binary_write_bytes.
  destruct b as [| x b]; [congruence |].
  unfold record_of, escaped.
  destruct (BinaryLogStream.android_log_write self tr _ _ _) as [e |].
  - split; [reflexivity | discriminate].
  - split; reflexivity.
Qed.

Lemma binary_write_one_escaped_call_witness :
  let self := BinaryLogStream.Make quiet_log_write 4 "python.stdout" in
  let b := [x61; x00; x62] in
  BinaryLogStream.write self (PyByteArray b) []
  = (Ok 3, [LogCall 4 "python.stdout" [x61; xc0; x80; x62]]).
Proof.
  intros self b.
  destruct (binary_write_one_escaped_call self (PyByteArray b) b [])
    as [Hcalls Hret].
  - reflexivity.
  - discriminate.
  - specialize (Hret eq_refl).
    destruct (BinaryLogStream.write self (PyByteArray b) []) as [r tr'].
    simpl in Hcalls, Hret. rewrite Hcalls, Hret. reflexivity.
Defined.

(** ** TextLogStream.flush *)

(** The three ways [flush] can go. *)
Lemma flush_eq (self : TextLogStream.t) (tr : trace) :
  TextLogStream.flush (self, tr) =
  match bytes_join (TextLogStream._pending_bytes self) with
  | [] => (Ok tt, (cleared self, tr))
  | (_ :: _) as block =>
      let sink := TextLogStream.buffer self in
      match BinaryLogStream.android_log_write sink tr
              (BinaryLogStream.prio sink) (BinaryLogStream.tag sink)
              (escaped block) with
      | None => (Ok tt, (cleared self, tr ++ [record_of sink block]))
      | Some e => (Raise e, (self, tr ++ [record_of sink block]))
      end
  end.
Proof.
  unfold TextLogStream.flush, bind, TextLogStream.get_self,
    TextLogStream.on_buffer, TextLogStream.modify_self. simpl.
  rewrite binary_write_bytes.
  destruct (bytes_join (TextLogStream._pending_bytes self)) as [| x block];
    [reflexivity |].
  cbv zeta.
  destruct (BinaryLogStream.android_log_write _ _ _ _ _); reflexivity.
Qed.

(** [flush] changes nothing but the pending buffer and its count. *)
Lemma cleared_fields (self : TextLogStream.t) :
  TextLogStream.buffer (cleared self) = TextLogStream.buffer self
  /\ TextLogStream.encoding (cleared self) = TextLogStream.encoding self
  /\ TextLogStream.errors (cleared self) = TextLogStream.errors self
  /\ TextLogStream.write_through (cleared self)
     = TextLogStream.write_through self
  /\ TextLogStream._pending_bytes (cleared self) = []
  /\ TextLogStream._pending_bytes_count (cleared self) = 0.
Proof. repeat split. Qed.

(** A stream with nothing pending and a count of zero is its own cleared
    stream. *)
Lemma cleared_idle (self : TextLogStream.t) :
  TextLogStream._pending_bytes self = [] ->
  TextLogStream._pending_bytes_count self = 0 ->
  cleared self = self.
Proof.
  destruct self as [sink enc err wt pending count]. simpl.
  intros -> ->. reflexivity.
Qed.

(** When [flush] raises, the stream object is as it was. *)
Lemma flush_raise_keeps_self (w w' : TextLogStream.world) (e : exn) :
  TextLogStream.flush w = (Raise e, w') -> fst w' = fst w.
Proof.
  destruct w as [self tr]. rewrite flush_eq.
  destruct (bytes_join (TextLogStream._pending_bytes self)); [discriminate |].
  cbv zeta. destruct (BinaryLogStream.android_log_write _ _ _ _ _).
  - intros [= _ <-]. reflexivity.
  - discriminate.
Qed.

(** C10: when the platform call made by [flush] raises, [flush] raises the
    same exception and leaves the pending buffer and its count as they were;
    the next [flush] makes the same platform call again, and when that call
    is accepted the buffer is emptied. *)
Theorem failed_flush_keeps_pending
    (self : TextLogStream.t) (tr : trace) (e : exn) :
  let sink := TextLogStream.buffer self in
  let block := bytes_join (TextLogStream._pending_bytes self) in
  let tr1 := tr ++ [record_of sink block] in
  block <> [] ->
  BinaryLogStream.android_log_write sink tr
    (BinaryLogStream.prio sink) (BinaryLogStream.tag sink) (escaped block)
  = Some e ->
  TextLogStream.flush (self, tr) = (Raise e, (self, tr1))
  /\ snd (snd (TextLogStream.flush (self, tr1))) = tr1 ++ [record_of sink block]
  /\ (BinaryLogStream.android_log_write sink tr1
        (BinaryLogStream.prio sink) (BinaryLogStream.tag sink) (escaped block)
      = None ->
      TextLogStream.flush (self, tr1)
      = (Ok tt, (cleared self, tr1 ++ [record_of sink block]))).
Proof.
  intros sink block tr1 Hne Hraise. rewrite !flush_eq. fold block. fold sink.
  destruct block as [| x block'] eqn:Hblock; [congruence |].
  cbv zeta. fold sink. rewrite Hraise. split; [reflexivity |].
  split.
  - destruct (BinaryLogStream.android_log_write sink tr1 _ _ _); reflexivity.
  - intros ->. reflexivity.
Qed.

Lemma failed_flush_keeps_pending_witness :
  let self :=
    TextLogStream.Make (BinaryLogStream.Make flaky_log_write 4 "python.stdout")
      "UTF-8" "strict" false [list_byte_of_string "hello"] 5 in
  let r := LogCall 4 "python.stdout" (list_byte_of_string "hello") in
  TextLogStream.flush (self, [])
  = (Raise (OtherError "OSError" "log device unavailable"), (self, [r]))
  /\ TextLogStream.flush (self, [r]) = (Ok tt, (cleared self, [r; r])).
Proof.
  intros self r.
  destruct (failed_flush_keeps_pending self []
              (OtherError "OSError" "log device unavailable"))
    as (Hraise & _ & Hretry).
  - discriminate.
  - reflexivity.
  - split; [exact Hraise | apply Hretry; reflexivity].
Defined.

(** ** TextLogStream._write_chunk *)

Section TextStream.

Context `{Codec}.

(** [_write_chunk], step by step. *)
Lemma write_chunk_eq (s : str) (self : TextLogStream.t) (tr : trace) :
  TextLogStream._write_chunk s (self, tr) =
  match str_encode (TextLogStream.encoding self) (TextLogStream.errors self) s
  with
  | Raise e => (Raise e, (self, tr))
  | Ok b =>
      match (if TextLogStream._pending_bytes_count self + len b
                >? MAX_BYTES_PER_WRITE
             then TextLogStream.flush else ret tt) (self, tr) with
      | (Raise e, w1) => (Raise e, w1)
      | (Ok _, w1) =>
          let self2 := appended b (fst w1) in
          if TextLogStream.write_through self2
             || endswith b x0a
             || (TextLogStream._pending_bytes_count self2
                 >? MAX_BYTES_PER_WRITE)
          then TextLogStream.flush (self2, snd w1)
          else (Ok tt, (self2, snd w1))
      end
  end.
Proof.
  unfold TextLogStream._write_chunk, bind, TextLogStream.get_self, lift_res.
  simpl.
  destruct (str_encode _ _ s) as [b | e]; [| reflexivity].
  destruct (_ >? _).
  - destruct (TextLogStream.flush (self, tr)) as [[u | e] [self1 tr1]];
      [| reflexivity].
    unfold TextLogStream.modify_self, appended, ret. simpl.
    destruct (_ || _ || _); reflexivity.
  - unfold TextLogStream.modify_self, appended, ret. simpl.
    destruct (_ || _ || _); reflexivity.
Qed.

(** The outcome of [flush] on the stream object. *)
Lemma flush_self (w : TextLogStream.world) :
  fst (snd (TextLogStream.flush w)) = fst w
  \/ fst (snd (TextLogStream.flush w)) = cleared (fst w).
Proof.
  destruct w as [self tr]. rewrite flush_eq.
  destruct (bytes_join _); [right; reflexivity |].
  cbv zeta. destruct (BinaryLogStream.android_log_write _ _ _ _ _);
    [left | right]; reflexivity.
Qed.

Lemma flush_keeps_count_ok :
  hoare (fun w => pending_count_ok (fst w)) TextLogStream.flush
        (fun _ w => pending_count_ok (fst w)).
Proof.
  intros w Hw.
  change (pending_count_ok (fst (snd (TextLogStream.flush w)))).
  destruct (flush_self w) as [E | E]; rewrite E; [exact Hw | reflexivity].
Qed.

Lemma appended_count_ok (b : bytes) (self : TextLogStream.t) :
  pending_count_ok self -> pending_count_ok (appended b self).
Proof.
  unfold pending_count_ok, appended. simpl. intros ->.
  rewrite sum_len_app. simpl. lia.
Qed.

Lemma write_chunk_keeps_count_ok (s : str) :
  hoare (fun w => pending_count_ok (fst w)) (TextLogStream._write_chunk s)
        (fun _ w => pending_count_ok (fst w)).
Proof.
  intros [self tr] Hw. simpl in Hw. rewrite write_chunk_eq.
  destruct (str_encode _ _ s) as [b | e]; [| exact Hw].
  set (m := if TextLogStream._pending_bytes_count self + len b
                >? MAX_BYTES_PER_WRITE
             then TextLogStream.flush else ret tt).
  assert (H1 : pending_count_ok (fst (snd (m (self, tr))))).
  { subst m. destruct (_ >? _);
      [apply (flush_keeps_count_ok (self, tr) Hw) | exact Hw]. }
  destruct (m (self, tr)) as [[u | e] w1]; [| exact H1].
  simpl in H1. cbv zeta.
  destruct (_ || _ || _).
  - apply (flush_keeps_count_ok (appended b (fst w1), snd w1)).
    now apply appended_count_ok.
  - now apply appended_count_ok.
Qed.

Lemma while_line_keeps_count_ok (fuel : nat) (line : str) :
  hoare (fun w => pending_count_ok (fst w)) (TextLogStream.while_line fuel line)
        (fun _ w => pending_count_ok (fst w)).
Proof.
  revert line. induction fuel as [| fuel IH]; intros [| c line]; simpl;
    try (apply hoare_ret; auto); try (apply hoare_raise; auto).
  apply hoare_bind with (Q1 := fun _ w => pending_count_ok (fst w)).
  - apply write_chunk_keeps_count_ok.
  - intros _. apply IH.
  - auto.
Qed.

(** The loop never runs out of fuel: any fuel of at least the length of the
    line gives the same computation. *)
Lemma while_line_fuel (fuel1 : nat) :
  forall (fuel2 : nat) (line : str),
    (length line <= fuel1)%nat ->
    (length line <= fuel2)%nat ->
    TextLogStream.while_line fuel1 line = TextLogStream.while_line fuel2 line.
Proof.
  induction fuel1 as [| fuel1 IH]; intros fuel2 line H1 H2;
    destruct line as [| c line]; try (simpl in H1; lia);
    destruct fuel2 as [| fuel2]; try (simpl in H2; lia); try reflexivity.
  cbn [TextLogStream.while_line].
  pose proof (length_slice_from (c :: line) ltac:(discriminate)) as Hshort.
  rewrite (IH fuel2 (slice_from MAX_CHARS_PER_WRITE (c :: line)))
    by lia.
  reflexivity.
Qed.

Lemma write_keeps_count_ok (o : pyobj) :
  hoare (fun w => pending_count_ok (fst w)) (TextLogStream.write o)
        (fun _ w => pending_count_ok (fst w)).
Proof.
  unfold TextLogStream.write. destruct (negb (isinstance_str o)).
  - apply hoare_raise. auto.
  - apply hoare_bind with (Q1 := fun _ w => pending_count_ok (fst w)).
    + apply hoare_for_each_inv. intros line _. apply while_line_keeps_count_ok.
    + intros _. apply hoare_ret. auto.
    + auto.
Qed.

(** One operation keeps the count right. *)
Lemma run_op_keeps_count_ok (o : op) (w : TextLogStream.world) :
  pending_count_ok (fst w) -> pending_count_ok (fst (run_op o w)).
Proof.
  intros Hw. destruct o as [x |]; simpl.
  - apply (write_keeps_count_ok x w Hw).
  - apply (flush_keeps_count_ok w Hw).
Qed.

(** C7: a new stream has a pending count equal to the sum of the lengths of
    its pending blocks, and from a state where the count is right every
    sequence of [write] and [flush] calls, returning or raising, ends in a
    state where it is right. *)
Theorem pending_count_invariant
    (android_log_write : trace -> Z -> string -> bytes -> option exn)
    (prio : Z) (tag : string) (kw_encoding kw_errors : option string)
    (kw_write_through : option bool)
    (w : TextLogStream.world) (ops : list op) :
  pending_count_ok (fst w) ->
  pending_count_ok
    (TextLogStream.__init__ android_log_write prio tag
       kw_encoding kw_errors kw_write_through)
  /\ pending_count_ok (fst (run_ops ops w)).
Proof.
  intros Hw. split; [reflexivity |].
  unfold run_ops. revert w Hw.
  induction ops as [| o ops IH]; intros w Hw; simpl.
  - exact Hw.
  - apply IH. now apply run_op_keeps_count_ok.
Qed.

End TextStream.

Lemma pending_count_invariant_witness :
  let self := stdout_stream "backslashreplace" in
  let ops := [OpWrite (PyStr (str_of_string "ab")); OpWrite PyNone;
              OpWrite (PyStr (str_of_string "c" ++ [LF])); OpFlush] in
  pending_count_ok self /\ pending_count_ok (fst (run_ops ops (self, []))).
Proof.
  intros self ops.
  apply (pending_count_invariant quiet_log_write ANDROID_LOG_INFO
           "python.stdout" None (Some "backslashreplace"%string) None
           (self, []) ops).
  reflexivity.
Defined.

(** ** Type errors and empty input *)

(** C8: [TextLogStream.write] raises a [TypeError] that names the type of
    an argument that is not a [str], [BinaryLogStream.write] one that names
    the type of an argument without a flat view of bytes; neither changes
    the stream or calls the platform. *)
Theorem write_rejects_other_types `{Codec}
    (s b : pyobj) (w : TextLogStream.world)
    (sink : BinaryLogStream.t) (tr : trace) :
  isinstance_str s = false ->
  (forall v, bytes_of_memoryview b <> Ok v) ->
  TextLogStream.write s w
  = (Raise (TypeError
       (String.append "write() argument must be str, not " (type_name s))), w)
  /\ BinaryLogStream.write sink b tr
     = (Raise (TypeError
          (String.append "write() argument must be bytes-like, not "
             (type_name b))), tr).
Proof.
  intros Hs Hb. split.
  - unfold TextLogStream.write. rewrite Hs. reflexivity.
  - destruct b; simpl in Hb;
      try (exfalso; eapply Hb; reflexivity); reflexivity.
Qed.

Lemma write_rejects_other_types_witness :
  let sink := BinaryLogStream.Make quiet_log_write 4 "python.stdout" in
  TextLogStream.write (PyBytes (list_byte_of_string "hello"))
    (stdout_stream "strict", [])
  = (Raise (TypeError "write() argument must be str, not bytes"),
     (stdout_stream "strict", []))
  /\ BinaryLogStream.write sink (PyInt 42) []
     = (Raise (TypeError "write() argument must be bytes-like, not int"), []).
Proof.
  intros sink.
  apply (write_rejects_other_types
           (PyBytes (list_byte_of_string "hello")) (PyInt 42)
           (stdout_stream "strict", []) sink []).
  - reflexivity.
  - intros v. discriminate.
Defined.

(** C9: writing the empty text, writing an empty block of bytes, and
    flushing a stream with nothing pending make no platform call and leave
    the pending buffer and its count as they were. *)
Theorem empty_input_is_a_no_op `{Codec}
    (s b : pyobj) (w : TextLogStream.world)
    (sink : BinaryLogStream.t) (tr : trace)
    (self : TextLogStream.t) (tr' : trace) :
  isinstance_str s = true ->
  str___str__ s = [] ->
  bytes_of_memoryview b = Ok [] ->
  TextLogStream._pending_bytes self = [] ->
  pending_count_ok self ->
  TextLogStream.write s w = (Ok 0, w)
  /\ BinaryLogStream.write sink b tr = (Ok 0, tr)
  /\ TextLogStream.flush (self, tr') = (Ok tt, (self, tr')).
Proof.
  intros Hs Hempty Hb Hpending Hcount. repeat split.
  - unfold TextLogStream.write. rewrite Hs, Hempty. destruct w; reflexivity.
  - rewrite (binary_write_view sink b [] tr Hb). reflexivity.
  - rewrite flush_eq, Hpending. simpl.
    rewrite cleared_idle; [reflexivity | exact Hpending |].
    unfold pending_count_ok in Hcount. rewrite Hcount, Hpending. reflexivity.
Qed.

Lemma empty_input_is_a_no_op_witness :
  let self := stdout_stream "backslashreplace" in
  let sink := TextLogStream.buffer self in
  TextLogStream.write (PyStr []) (self, []) = (Ok 0, (self, []))
  /\ BinaryLogStream.write sink (PyBytes []) [] = (Ok 0, [])
  /\ TextLogStream.flush (self, []) = (Ok tt, (self, [])).
Proof.
  intros self sink.
  apply (empty_input_is_a_no_op (PyStr []) (PyBytes []) (self, []) sink []
           self []); reflexivity.
Defined.

(** ** Lines and segments *)

Lemma segment_refl {A : Type} (s : list A) : segment s s.
Proof. exists [], []. simpl. now rewrite app_nil_r. Qed.

Lemma segment_trans {A : Type} (a b c : list A) :
  segment a b -> segment b c -> segment a c.
Proof.
  intros (p1 & q1 & ->) (p2 & q2 & ->).
  exists (p2 ++ p1), (q1 ++ q2). now rewrite <- !app_assoc.
Qed.

Lemma segment_slice_to {A : Type} (n : Z) (l : list A) :
  segment (slice_to n l) l.
Proof.
  exists [], (slice_from n l). simpl. symmetry. apply slice_to_from.
Qed.

Lemma segment_slice_from {A : Type} (n : Z) (l : list A) :
  segment (slice_from n l) l.
Proof.
  exists (slice_to n l), []. rewrite app_nil_r. symmetry. apply slice_to_from.
Qed.

Lemma in_concat_segment {A : Type} (x : list A) (xs : list (list A)) :
  In x xs -> segment x (concat xs).
Proof.
  induction xs as [| y xs IH]; intros Hin; [contradiction |].
  destruct Hin as [-> | Hin].
  - exists [], (concat xs). reflexivity.
  - destruct (IH Hin) as (pre & post & Heq).
    exists (y ++ pre), post. simpl. rewrite Heq. now rewrite <- app_assoc.
Qed.

(** The lines of a text, put end to end, are the text. *)
Lemma concat_splitlines_from (n : nat) :
  forall (s cur : str),
    (length s <= n)%nat ->
    concat (splitlines_from cur s) = rev cur ++ s.
Proof.
  induction n as [| n IH]; intros s cur Hlen.
  - destruct s as [| c rest]; [| simpl in Hlen; lia].
    simpl. destruct cur as [| x cur]; [reflexivity |].
    simpl concat. now rewrite !app_nil_r.
  - destruct s as [| c rest].
    + simpl. destruct cur as [| x cur]; [reflexivity |].
      simpl concat. now rewrite !app_nil_r.
    + simpl in Hlen. cbn [splitlines_from].
      destruct (N.eqb c CR); [destruct rest as [| d rest'];
                               [| destruct (N.eqb d LF)] |
                              destruct (is_linebreak c)];
        cbn [concat]; rewrite ?IH by (simpl in Hlen |- *; lia);
        simpl; rewrite ?app_nil_r, <- ?app_assoc; reflexivity.
Qed.

Lemma concat_splitlines (s : str) : concat (splitlines_keepends s) = s.
Proof.
  unfold splitlines_keepends.
  now rewrite (concat_splitlines_from (length s) s []) by lia.
Qed.

Lemma line_is_segment (s line : str) :
  In line (splitlines_keepends s) -> segment line s.
Proof.
  intros Hin. apply in_concat_segment in Hin.
  now rewrite concat_splitlines in Hin.
Qed.

(** ** The value [write] returns *)

Section Returns.

Context `{Codec}.

Variable self0 : TextLogStream.t.
Hypothesis Hplatform : platform_accepts self0.

Lemma cleared_same_config (self : TextLogStream.t) :
  same_config self0 self -> same_config self0 (cleared self).
Proof. intros Hc. exact Hc. Qed.

Lemma appended_same_config (b : bytes) (self : TextLogStream.t) :
  same_config self0 self -> same_config self0 (appended b self).
Proof. intros Hc. exact Hc. Qed.

(** With a platform that accepts every call, [flush] returns and empties
    the pending buffer. *)
Lemma flush_accepted (self : TextLogStream.t) (tr : trace) :
  same_config self0 self ->
  exists tr', TextLogStream.flush (self, tr) = (Ok tt, (cleared self, tr')).
Proof.
  intros (Hbuf & _). rewrite flush_eq.
  destruct (bytes_join _) as [| x block]; [now exists tr |].
  cbv zeta. rewrite Hbuf, Hplatform. eauto.
Qed.

Lemma flush_returns :
  hoare (configured_as self0) TextLogStream.flush
        (fun r w => r = Ok tt /\ configured_as self0 w).
Proof.
  intros [self tr] Hc. unfold configured_as in *. simpl in Hc.
  destruct (flush_accepted self tr Hc) as [tr' ->]. simpl.
  split; [reflexivity | now apply cleared_same_config].
Qed.

Lemma write_chunk_returns (c : str) :
  (exists b,
     str_encode (TextLogStream.encoding self0) (TextLogStream.errors self0) c
     = Ok b) ->
  hoare (configured_as self0) (TextLogStream._write_chunk c)
        (fun r w => r = Ok tt /\ configured_as self0 w).
Proof.
  intros [b Hb] [self tr] Hc. unfold configured_as in *. simpl in Hc.
  rewrite write_chunk_eq.
  destruct Hc as (Hbuf & Henc & Herr & Hwt) eqn:Hc_eq.
  rewrite Henc, Herr, Hb.
  set (m := if TextLogStream._pending_bytes_count self + len b
                >? MAX_BYTES_PER_WRITE
             then TextLogStream.flush else ret tt).
  assert (H1 : fst (m (self, tr)) = Ok tt
               /\ same_config self0 (fst (snd (m (self, tr))))).
  { subst m. destruct (_ >? _).
    - apply (flush_returns (self, tr)). exact Hc.
    - split; [reflexivity | exact Hc]. }
  destruct (m (self, tr)) as [[u | e] [self1 tr1]];
    simpl in H1; destruct H1 as [H1 H2]; [| discriminate].
  cbv zeta. simpl fst. simpl snd.
  destruct (_ || _ || _).
  - apply (flush_returns (appended b self1, tr1)).
    now apply appended_same_config.
  - simpl. split; [reflexivity | now apply appended_same_config].
Qed.

Lemma while_line_returns (fuel : nat) :
  forall line : str,
    (length line <= fuel)%nat ->
    encodes_parts self0 line ->
    hoare (configured_as self0) (TextLogStream.while_line fuel line)
          (fun r w => r = Ok tt /\ configured_as self0 w).
Proof.
  induction fuel as [| fuel IH]; intros [| c line] Hlen Henc;
    try (apply hoare_ret; auto); [simpl in Hlen; lia |].
  cbn [TextLogStream.while_line].
  apply hoare_bind with (Q1 := fun r w => r = Ok tt /\ configured_as self0 w).
  - apply write_chunk_returns. apply Henc, segment_slice_to.
  - intros a. eapply hoare_conseq.
    + apply IH.
      * pose proof (length_slice_from (c :: line)) as Hlt.
        specialize (Hlt ltac:(discriminate)). lia.
      * intros x Hx. apply Henc.
        eapply segment_trans; [exact Hx | apply segment_slice_from].
    + intros w [_ Hw]. exact Hw.
    + auto.
  - intros e w [Habs _]. discriminate.
Qed.

Lemma write_returns (o : pyobj) :
  isinstance_str o = true ->
  encodes_parts self0 (str___str__ o) ->
  hoare (configured_as self0) (TextLogStream.write o)
        (fun r w => r = Ok (len (str___str__ o)) /\ configured_as self0 w).
Proof.
  intros Ho Henc. unfold TextLogStream.write. rewrite Ho. simpl negb. cbv iota.
  apply hoare_bind with (Q1 := fun r w => r = Ok tt /\ configured_as self0 w).
  - apply hoare_for_each_ok. intros line Hline.
    apply while_line_returns; [lia |].
    intros x Hx. apply Henc.
    eapply segment_trans; [exact Hx | now apply line_is_segment].
  - intros a. apply hoare_ret. intros w [_ Hw]. auto.
  - intros e w [Habs _]. discriminate.
Qed.

End Returns.

(** C4: [TextLogStream.write] returns the number of characters of its
    argument, and [BinaryLogStream.write] the number of bytes of its
    argument, provided nothing raises on the way: the codec encodes the
    parts of the text and the platform accepts the calls. *)
Theorem write_returns_input_length `{Codec}
    (self : TextLogStream.t) (tr : trace) (s : pyobj)
    (sink : BinaryLogStream.t) (tr_b : trace) (b : pyobj) (v : bytes) :
  isinstance_str s = true ->
  encodes_parts self (str___str__ s) ->
  platform_accepts self ->
  bytes_of_memoryview b = Ok v ->
  BinaryLogStream.android_log_write sink tr_b
    (BinaryLogStream.prio sink) (BinaryLogStream.tag sink) (escaped v) = None ->
  fst (TextLogStream.write s (self, tr)) = Ok (len (str___str__ s))
  /\ fst (BinaryLogStream.write sink b tr_b) = Ok (len v).
Proof.
  intros Hs Henc Hplat Hb Hquiet. split.
  - apply (write_returns self Hplat s Hs Henc (self, tr)).
    repeat split.
  - rewrite (binary_write_view sink b v tr_b Hb), binary_write_bytes.
    destruct v as [| x v]; [reflexivity |].
    rewrite Hquiet. reflexivity.
Qed.

(** Under the handler [backslashreplace] the UTF-8 codec encodes every
    text. *)
Lemma utf8_backslashreplace_total (s : str) :
  exists b, utf8_encode "backslashreplace" s = Ok b.
Proof.
  induction s as [| c s [bs IH]]; [now exists [] |].
  simpl. rewrite IH. unfold utf8_encode_char.
  destruct (is_surrogate c); simpl; eauto.
Qed.

Lemma write_returns_input_length_witness :
  let self := stdout_stream "backslashreplace" in
  let s := [111; 108; 233; 55296; 10]%N in
  fst (TextLogStream.write (PyStr s) (self, [])) = Ok 5
  /\ fst (BinaryLogStream.write (TextLogStream.buffer self)
            (PyByteArray [x61; x00]) []) = Ok 2.
Proof.
  intros self s.
  apply (write_returns_input_length self [] (PyStr s)
           (TextLogStream.buffer self) [] (PyByteArray [x61; x00]) [x61; x00]).
  - reflexivity.
  - intros c _. apply utf8_backslashreplace_total.
  - intros tr p tg msg. reflexivity.
  - reflexivity.
  - reflexivity.
Defined.

(** ** Write-through *)

Lemma splitlines_single (c : char) : splitlines_keepends [c] = [[c]].
Proof.
  unfold splitlines_keepends. simpl.
  destruct (N.eqb c CR); [reflexivity |].
  destruct (is_linebreak c); reflexivity.
Qed.

(** Writing one character is writing one chunk. *)
Lemma write_single_char `{Codec} (c : char) (w : TextLogStream.world) :
  TextLogStream.write (PyStr [c]) w =
  match TextLogStream._write_chunk [c] w with
  | (Ok _, w') => (Ok 1, w')
  | (Raise e, w') => (Raise e, w')
  end.
Proof.
  unfold TextLogStream.write.
  change (isinstance_str (PyStr [c])) with true.
  change (str___str__ (PyStr [c])) with [c].
  cbn [negb]. rewrite splitlines_single.
  cbn [for_each]. change (length [c]) with 1%nat.
  cbn [TextLogStream.while_line].
  change (slice_to MAX_CHARS_PER_WRITE [c]) with [c].
  change (slice_from MAX_CHARS_PER_WRITE [c]) with (@nil char).
  unfold bind, ret.
  destruct (TextLogStream._write_chunk [c] w) as [[u | e] w']; reflexivity.
Qed.

(** With [write_through] set, a chunk written to a stream with nothing
    pending goes to the platform at once, and nothing is pending after. *)
Lemma write_chunk_through `{Codec} (self : TextLogStream.t) (tr : trace)
    (s : str) (b : bytes) :
  TextLogStream.write_through self = true ->
  TextLogStream._pending_bytes self = [] ->
  TextLogStream._pending_bytes_count self = 0 ->
  platform_accepts self ->
  str_encode (TextLogStream.encoding self) (TextLogStream.errors self) s
  = Ok b ->
  b <> [] ->
  TextLogStream._write_chunk s (self, tr)
  = (Ok tt, (self, tr ++ [record_of (TextLogStream.buffer self) b])).
Proof.
  intros Hwt Hpending Hcount Hplat Henc Hne.
  rewrite write_chunk_eq, Henc.
  assert (Hfirst : (if TextLogStream._pending_bytes_count self + len b
                       >? MAX_BYTES_PER_WRITE
                    then TextLogStream.flush else ret tt) (self, tr)
                   = (Ok tt, (self, tr))).
  { destruct (_ >? _); [| reflexivity].
    rewrite flush_eq, Hpending. simpl.
    now rewrite cleared_idle. }
  rewrite Hfirst. cbv zeta. simpl fst. simpl snd.
  replace (TextLogStream.write_through (appended b self)) with true
    by (symmetry; exact Hwt).
  simpl orb. cbv iota. rewrite flush_eq.
  replace (bytes_join (TextLogStream._pending_bytes (appended b self)))
    with b
    by (simpl; rewrite Hpending; simpl; now rewrite app_nil_r).
  destruct b as [| x b]; [congruence |].
  cbv zeta.
  replace (TextLogStream.buffer (appended (x :: b) self))
    with (TextLogStream.buffer self) by reflexivity.
  rewrite Hplat.
  replace (cleared (appended (x :: b) self)) with (cleared self)
    by reflexivity.
  now rewrite cleared_idle.
Qed.

(** ** The boundary scenario: 700 times "foobar" and a newline *)

(** C2: written to a new UTF-8 stream, the 4201 characters of "foobar" * 700
    followed by a newline make exactly two platform records: "foobar" * 666
    followed by "foob", of 4000 bytes, then "ar", "foobar" * 33 and the
    newline, of 201 bytes; [write] returns 4201 and nothing stays pending. *)
Theorem boundary_scenario_two_records (prio : Z) (tag errors : string) :
  let s := seq_mul (str_of_string "foobar") 700 ++ [LF] in
  let self :=
    TextLogStream.__init__ quiet_log_write prio tag None (Some errors) None in
  let first :=
    seq_mul (list_byte_of_string "foobar") 666 ++ list_byte_of_string "foob" in
  let second :=
    list_byte_of_string "ar" ++ seq_mul (list_byte_of_string "foobar") 33
      ++ [x0a] in
  len s = 4201
  /\ TextLogStream.write (PyStr s) (self, [])
     = (Ok 4201, (self, [LogCall prio tag first; LogCall prio tag second]))
  /\ len first = 4000
  /\ len second = 201.
Proof.
  intros s self first second.
  split; [| split; [| split]]; vm_compute; reflexivity.
Qed.

(** C2 fails as stated: the second record of the boundary scenario is not
    the 200 bytes "ar",
    "foobar" * 33: the payloads of the two calls are not the two texts the
    scenario names. *)
Lemma boundary_scenario_second_is_not_200_bytes :
  let s := seq_mul (str_of_string "foobar") 700 ++ [LF] in
  let first :=
    seq_mul (list_byte_of_string "foobar") 666 ++ list_byte_of_string "foob" in
  let second :=
    list_byte_of_string "ar" ++ seq_mul (list_byte_of_string "foobar") 33 in
  len second = 200
  /\ map call_msg
       (snd (snd (TextLogStream.write (PyStr s) (stdout_stream "strict", []))))
     <> [first; second].
Proof.
  intros s first second. split; [vm_compute; reflexivity |].
  intros Heq.
  assert (Hsent : map (@length byte)
                    (map call_msg
                       (snd (snd (TextLogStream.write (PyStr s)
                                    (stdout_stream "strict", [])))))
                  = [4000; 201]%nat)
    by (vm_compute; reflexivity).
  assert (Hnamed : map (@length byte) [first; second] = [4000; 200]%nat)
    by (vm_compute; reflexivity).
  rewrite Heq, Hnamed in Hsent. discriminate Hsent.
Qed.

(** ** Blocks within the limit

    What the size check of [_write_chunk] does achieve: with a codec that
    makes at most four bytes of a character, every block handed to the
    binary stream has at most [MAX_BYTES_PER_WRITE] bytes.  The bound is on
    the block as counted, before its NUL bytes are escaped. *)

Section Bound.

Context `{Codec}.

Variable self0 : TextLogStream.t.

Hypothesis Hfour :
  forall c b,
    str_encode (TextLogStream.encoding self0) (TextLogStream.errors self0) c
    = Ok b ->
    len b <= 4 * len c.

Lemma bounded_cleared (self : TextLogStream.t) (tr : trace) :
  same_config self0 self ->
  Forall block_within_limit tr ->
  bounded self0 (cleared self, tr).
Proof.
  intros Hcfg Hall. split; [exact Hcfg |]. split; [reflexivity |].
  split; [| exact Hall]. simpl. unfold MAX_BYTES_PER_WRITE. lia.
Qed.

Lemma flush_bounded :
  hoare (bounded self0) TextLogStream.flush
        (fun r w =>
           bounded self0 w
           /\ (r = Ok tt -> TextLogStream._pending_bytes_count (fst w) = 0)).
Proof.
  intros [self tr] (Hcfg & Hcnt & Hle & Hall). simpl in Hcfg, Hcnt, Hle, Hall.
  rewrite flush_eq.
  destruct (bytes_join (TextLogStream._pending_bytes self)) as [| x block]
    eqn:Hjoin.
  - cbn [fst snd]. split; [now apply bounded_cleared | reflexivity].
  - assert (Hblock : block_within_limit
                       (record_of (TextLogStream.buffer self) (x :: block))).
    { exists (x :: block). split; [reflexivity |].
      rewrite <- Hjoin, len_bytes_join. unfold pending_count_ok in Hcnt. lia. }
    assert (Hall' : Forall block_within_limit
                      (tr ++ [record_of (TextLogStream.buffer self)
                                (x :: block)])).
    { apply Forall_app. split; [exact Hall | now constructor]. }
    cbv zeta.
    destruct (BinaryLogStream.android_log_write _ _ _ _ _); cbn [fst snd].
    + split; [| discriminate].
      split; [exact Hcfg |]. split; [exact Hcnt |]. split; assumption.
    + split; [now apply bounded_cleared | reflexivity].
Qed.

Lemma write_chunk_bounded (c : str) :
  len c <= MAX_CHARS_PER_WRITE ->
  hoare (bounded self0) (TextLogStream._write_chunk c)
        (fun _ w => bounded self0 w).
Proof.
  intros Hc [self tr] Hb. assert (Hb' := Hb).
  destruct Hb' as (Hcfg & Hcnt & Hle & Hall).
  simpl in Hcfg, Hcnt, Hle, Hall.
  rewrite write_chunk_eq.
  destruct Hcfg as (Hbuf & Henc & Herr & Hwt).
  rewrite Henc, Herr.
  destruct (str_encode _ _ c) as [b | e] eqn:Hb_enc; [| exact Hb].
  apply Hfour in Hb_enc.
  assert (Hlen : len b <= MAX_BYTES_PER_WRITE).
  { change MAX_CHARS_PER_WRITE with 1000 in Hc.
    change MAX_BYTES_PER_WRITE with 4000. lia. }
  set (m := if TextLogStream._pending_bytes_count self + len b
                >? MAX_BYTES_PER_WRITE
             then TextLogStream.flush else ret tt).
  assert (H1 : bounded self0 (snd (m (self, tr)))
               /\ (fst (m (self, tr)) = Ok tt ->
                   TextLogStream._pending_bytes_count (fst (snd (m (self, tr))))
                   + len b <= MAX_BYTES_PER_WRITE)).
  { subst m.
    destruct (Z.gtb_spec (TextLogStream._pending_bytes_count self + len b)
                MAX_BYTES_PER_WRITE) as [Hover | Hroom].
    - destruct (flush_bounded (self, tr) Hb) as [Hb1 Hzero].
      split; [exact Hb1 |]. intros Hret. rewrite (Hzero Hret). lia.
    - split; [exact Hb |]. intros _. exact Hroom. }
  destruct (m (self, tr)) as [[[] | e] [self1 tr1]]; cbn [fst snd] in H1.
  - destruct H1 as [(Hcfg1 & Hcnt1 & Hle1 & Hall1) Hroom].
    specialize (Hroom eq_refl). cbn [fst snd] in Hcfg1, Hcnt1, Hle1, Hall1.
    assert (Hb2 : bounded self0 (appended b self1, tr1)).
    { split; [exact Hcfg1 |]. split; [now apply appended_count_ok |].
      split; [exact Hroom | exact Hall1]. }
    cbv zeta. cbn [fst snd].
    destruct (_ || _ || _).
    + apply (flush_bounded (appended b self1, tr1) Hb2).
    + exact Hb2.
  - apply H1.
Qed.

Lemma while_line_bounded (fuel : nat) (line : str) :
  hoare (bounded self0) (TextLogStream.while_line fuel line)
        (fun _ w => bounded self0 w).
Proof.
  revert line. induction fuel as [| fuel IH]; intros [| c line]; simpl;
    try (apply hoare_ret; auto); try (apply hoare_raise; auto).
  apply hoare_bind with (Q1 := fun _ w => bounded self0 w).
  - apply write_chunk_bounded. apply len_slice_to. discriminate.
  - intros _. apply IH.
  - auto.
Qed.

Lemma write_bounded (o : pyobj) :
  hoare (bounded self0) (TextLogStream.write o) (fun _ w => bounded self0 w).
Proof.
  unfold TextLogStream.write. destruct (negb (isinstance_str o)).
  - apply hoare_raise. auto.
  - apply hoare_bind with (Q1 := fun _ w => bounded self0 w).
    + apply hoare_for_each_inv. intros line _. apply while_line_bounded.
    + intros _. apply hoare_ret. auto.
    + auto.
Qed.

(** Whatever is written and flushed, each block logged had at most
    [MAX_BYTES_PER_WRITE] bytes when it was counted. *)
Lemma blocks_within_limit (ops : list op) (w : TextLogStream.world) :
  bounded self0 w -> bounded self0 (run_ops ops w).
Proof.
  unfold run_ops. revert w.
  induction ops as [| o ops IH]; intros w Hw; simpl; [exact Hw |].
  apply IH. destruct o as [x |]; simpl.
  - apply (write_bounded x w Hw).
  - apply (flush_bounded w Hw).
Qed.

End Bound.

(** ** Records above the limit *)

(** C1: a record can exceed [MAX_BYTES_PER_WRITE].  Written to a new UTF-8
    stream, 2001 NUL characters and a newline go to the platform as one
    payload of 4003 bytes: the pending count is taken before the NUL bytes
    are escaped.  Under the handler [backslashreplace], 1000 lone
    surrogates make one chunk, which goes to the platform as one payload of
    6000 bytes. *)
Theorem record_exceeds_limit :
  let nuls := seq_mul [0%N] 2001 ++ [LF] in
  let surrogates := seq_mul [0xDC80%N] 1000 in
  map (fun c => len (call_msg c))
    (snd (snd (TextLogStream.write (PyStr nuls) (stdout_stream "strict", []))))
  = [4003]
  /\ map (fun c => len (call_msg c))
       (snd (snd (TextLogStream.write (PyStr surrogates)
                    (stdout_stream "backslashreplace", []))))
     = [6000]
  /\ MAX_BYTES_PER_WRITE < 4003.
Proof.
  intros nuls surrogates. split; [| split]; vm_compute; reflexivity.
Qed.

(** ** Pieces of a text *)


Lemma lf_pieces_concat (t : str) :
  concat (fst (lf_pieces t)) ++ snd (lf_pieces t) = t.
Proof.
  induction t as [| x t IH]; [reflexivity |].
  cbn [lf_pieces]. destruct (N.eqb x LF).
  - simpl. now rewrite IH.
  - unfold push_char. destruct (fst (lf_pieces t)) as [| p ps] eqn:Hps.
    + simpl in *. congruence.
    + simpl in *. f_equal. exact IH.
Qed.

Lemma lf_pieces_rest_no_lf (t : str) : ~ In LF (snd (lf_pieces t)).
Proof.
  induction t as [| x t IH]; [auto |].
  cbn [lf_pieces]. destruct (N.eqb x LF) eqn:Hx; [exact IH |].
  unfold push_char. destruct (fst (lf_pieces t)); simpl; [| exact IH].
  intros [-> | Hin]; [| auto].
  now rewrite N.eqb_refl in Hx.
Qed.

Lemma lf_pieces_no_lf (u : str) : ~ In LF u -> lf_pieces u = ([], u).
Proof.
  induction u as [| x u IH]; intros Hno; [reflexivity |].
  cbn [lf_pieces].
  destruct (N.eqb x LF) eqn:Hx.
  - apply N.eqb_eq in Hx. exfalso. apply Hno. now left.
  - rewrite IH by (intros Hin; apply Hno; now right). reflexivity.
Qed.

Lemma lf_pieces_line (u : str) :
  ~ In LF u -> lf_pieces (u ++ [LF]) = ([u ++ [LF]], []).
Proof.
  induction u as [| x u IH]; intros Hno; [reflexivity |].
  simpl app. cbn [lf_pieces].
  destruct (N.eqb x LF) eqn:Hx.
  - apply N.eqb_eq in Hx. exfalso. apply Hno. now left.
  - rewrite IH by (intros Hin; apply Hno; now right). reflexivity.
Qed.

Lemma lf_pieces_app (a b : str) :
  lf_pieces (a ++ b) =
  (fst (lf_pieces a) ++ fst (lf_pieces (snd (lf_pieces a) ++ b)),
   snd (lf_pieces (snd (lf_pieces a) ++ b))).
Proof.
  induction a as [| x a IH].
  - simpl. now destruct (lf_pieces b).
  - simpl app. cbn [lf_pieces]. rewrite IH. clear IH.
    destruct (lf_pieces a) as [ra ca]. cbn [fst snd].
    destruct (N.eqb x LF) eqn:Hx; [reflexivity |].
    unfold push_char. cbn [fst snd].
    destruct ra as [| p ps]; cbn [fst snd app]; [| reflexivity].
    cbn [lf_pieces]. rewrite Hx. unfold push_char.
    destruct (lf_pieces (ca ++ b)) as [rb cb]. cbn [fst snd].
    destruct rb; reflexivity.
Qed.

(** Pieces after one more chunk that holds no LF. *)
Lemma lf_pieces_app_no_lf (done c : str) :
  ~ In LF c ->
  lf_pieces (done ++ c)
  = (fst (lf_pieces done), snd (lf_pieces done) ++ c).
Proof.
  intros Hno.
  rewrite lf_pieces_app, (lf_pieces_no_lf (snd (lf_pieces done) ++ c)).
  - simpl. now rewrite app_nil_r.
  - intros Hin. apply in_app_or in Hin as [Hin | Hin]; [| auto].
    now apply (lf_pieces_rest_no_lf done).
Qed.

(** Pieces after one more chunk that ends in its only LF. *)
Lemma lf_pieces_app_line (done c : str) :
  ~ In LF c ->
  lf_pieces (done ++ c ++ [LF])
  = (fst (lf_pieces done) ++ [snd (lf_pieces done) ++ c ++ [LF]], []).
Proof.
  intros Hno.
  rewrite lf_pieces_app, app_assoc,
    (lf_pieces_line (snd (lf_pieces done) ++ c)).
  - simpl. now rewrite <- app_assoc.
  - intros Hin. apply in_app_or in Hin as [Hin | Hin]; [| auto].
    now apply (lf_pieces_rest_no_lf done).
Qed.

Lemma lf_only_last_app_l (a b : str) :
  lf_only_last (a ++ b) -> lf_only_last a.
Proof.
  intros H pre post ->. specialize (H pre (post ++ b)).
  rewrite <- app_assoc in H. specialize (H eq_refl).
  now apply app_eq_nil in H.
Qed.

Lemma lf_only_last_app_r (a b : str) :
  lf_only_last (a ++ b) -> lf_only_last b.
Proof.
  intros H pre post ->. apply (H (a ++ pre) post). now rewrite <- app_assoc.
Qed.

Lemma lf_only_last_no_lf (a b : str) :
  lf_only_last (a ++ b) -> b <> [] -> ~ In LF a.
Proof.
  intros H Hb Hin. apply in_split in Hin as (pre & post & ->).
  specialize (H pre (post ++ b)). rewrite <- app_assoc in H.
  specialize (H eq_refl). apply app_eq_nil in H. now destruct H.
Qed.

Lemma lf_only_last_snoc (c : str) (x : char) :
  lf_only_last (c ++ [x]) -> ~ In LF c.
Proof. intros H. apply (lf_only_last_no_lf c [x] H). discriminate. Qed.

Lemma no_lf_only_last (c : str) (x : char) :
  ~ In LF c -> lf_only_last (c ++ [x]).
Proof.
  intros Hno pre post Heq.
  destruct post as [| y post] using rev_ind; [reflexivity |].
  exfalso. clear IHpost.
  change (pre ++ LF :: post ++ [y]) with (pre ++ (LF :: post) ++ [y]) in Heq.
  rewrite app_assoc in Heq. apply app_inj_tail in Heq as [-> _].
  apply Hno. apply in_or_app. right. now left.
Qed.

(** The lines of [splitlines] hold LF at their end only. *)
Lemma splitlines_from_lf_only_last (n : nat) :
  forall (s cur : str),
    (length s <= n)%nat ->
    ~ In LF cur ->
    Forall lf_only_last (splitlines_from cur s).
Proof.
  assert (Hrev : forall (cur : str) (x : char),
             ~ In LF cur -> lf_only_last (rev (x :: cur))).
  { intros cur x Hno. simpl. apply no_lf_only_last.
    intros Hin. apply Hno. now apply in_rev. }
  assert (Hcr : forall cur : str, ~ In LF cur -> ~ In LF (CR :: cur)).
  { intros cur Hno [Habs | Hin]; [discriminate | auto]. }
  induction n as [| n IH]; intros s cur Hlen Hno.
  - destruct s as [| c rest]; [| simpl in Hlen; lia].
    simpl. destruct cur as [| x cur]; constructor; [| constructor].
    apply Hrev. intros Hin. apply Hno. now right.
  - destruct s as [| c rest].
    + simpl. destruct cur as [| x cur]; constructor; [| constructor].
      apply Hrev. intros Hin. apply Hno. now right.
    + simpl in Hlen. cbn [splitlines_from].
      destruct (N.eqb c CR) eqn:Hc.
      * apply N.eqb_eq in Hc. subst c.
        destruct rest as [| d rest'].
        -- constructor; [now apply Hrev | constructor].
        -- destruct (N.eqb d LF) eqn:Hd.
           ++ constructor.
              ** apply Hrev. now apply Hcr.
              ** apply IH; [simpl in Hlen; lia | auto].
           ++ constructor; [now apply Hrev |].
              apply IH; [lia | auto].
      * destruct (is_linebreak c) eqn:Hlb.
        -- constructor; [now apply Hrev |]. apply IH; [lia | auto].
        -- apply IH; [lia |].
           intros [Heq | Hin]; [| auto].
           subst c. vm_compute in Hlb. discriminate.
Qed.

Lemma splitlines_lf_only_last (s : str) :
  Forall lf_only_last (splitlines_keepends s).
Proof.
  apply (splitlines_from_lf_only_last (length s)); [lia | auto].
Qed.





(** ** The UTF-8 codec on text without surrogates *)

Lemma utf8_encode_plain (errors : string) (s : str) :
  forallb (fun c => negb (is_surrogate c)) s = true ->
  utf8_encode errors s = Ok (flat_map utf8_bytes s).
Proof.
  induction s as [| c s IH]; [reflexivity |].
  simpl. intros Hs. apply andb_prop in Hs as [Hc Hs].
  unfold utf8_encode_char. apply negb_true_iff in Hc. rewrite Hc, (IH Hs).
  reflexivity.
Qed.

Lemma utf8_bytes_nonempty (c : char) : utf8_bytes c <> [].
Proof.
  unfold utf8_bytes.
  destruct (c <? 128)%N; [discriminate |].
  destruct (c <? 2048)%N; [discriminate |].
  destruct (c <? 65536)%N; discriminate.
Qed.

Lemma byte_of_N_is_lf (n : N) : Byte.eqb (byte_of_N n) x0a = N.eqb n 10.
Proof.
  destruct (N.eqb_spec n 10) as [-> | Hn]; [reflexivity |].
  destruct (Byte.eqb (byte_of_N n) x0a) eqn:E; [| reflexivity].
  apply byte_dec_bl in E. unfold byte_of_N in E.
  destruct (Byte.of_N n) as [b |] eqn:Hof; [| discriminate E].
  subst b. apply Byte.to_of_N in Hof. simpl in Hof. congruence.
Qed.

Lemma continuation_byte_is_not_lf (m : N) :
  Byte.eqb (byte_of_N (N.lor 128 m)) x0a = false.
Proof.
  rewrite byte_of_N_is_lf. apply N.eqb_neq. intros Heq.
  apply (f_equal (fun v => N.testbit v 7)) in Heq.
  rewrite N.lor_spec in Heq. discriminate Heq.
Qed.

(** The bytes of a character end in 0x0A for LF only. *)
Lemma utf8_bytes_ends_lf (c : char) :
  endswith (utf8_bytes c) x0a = N.eqb c LF.
Proof.
  unfold utf8_bytes, LF.
  destruct (N.ltb_spec c 128).
  - unfold endswith. simpl. apply byte_of_N_is_lf.
  - assert (Hc : N.eqb c 10 = false) by (apply N.eqb_neq; lia).
    rewrite Hc.
    destruct (c <? 2048)%N; [| destruct (c <? 65536)%N];
      unfold endswith; simpl; apply continuation_byte_is_not_lf.
Qed.

(** ** Records and newlines *)

Lemma endswith_app (a b : bytes) (x : byte) :
  b <> [] -> endswith (a ++ b) x = endswith b x.
Proof.
  intros Hb. unfold endswith. rewrite rev_app_distr.
  destruct (rev b) as [| y r] eqn:Hrev; [| reflexivity].
  exfalso. apply Hb. apply (f_equal (@rev byte)) in Hrev.
  now rewrite rev_involutive in Hrev.
Qed.

Lemma bytes_join_snoc (blocks : list bytes) (b : bytes) :
  bytes_join (blocks ++ [b]) = bytes_join blocks ++ b.
Proof.
  unfold bytes_join. rewrite concat_app. simpl. now rewrite app_nil_r.
Qed.

Lemma forallb_concat {A : Type} (f : A -> bool) (ls : list (list A)) :
  forallb f (concat ls) = true -> Forall (fun l => forallb f l = true) ls.
Proof.
  induction ls as [| l ls IH]; intros Hall; constructor;
    simpl in Hall; rewrite forallb_app in Hall;
    apply andb_prop in Hall as [Hl Hls]; auto.
Qed.

(** With a platform that accepts the call, [flush] logs the pending bytes
    as one record. *)
Lemma flush_logs_block (self : TextLogStream.t) (tr : trace) (block : bytes) :
  platform_accepts self ->
  bytes_join (TextLogStream._pending_bytes self) = block ->
  block <> [] ->
  TextLogStream.flush (self, tr)
  = (Ok tt, (cleared self, tr ++ [record_of (TextLogStream.buffer self) block])).
Proof.
  intros Hplat Hjoin Hne. rewrite flush_eq, Hjoin.
  destruct block as [| x block]; [congruence |].
  cbv zeta. now rewrite Hplat.
Qed.

Section Pieces.

Context `{Codec}.

Variable ok : char -> bool.
Variable enc1 : char -> bytes.
Variable self0 : TextLogStream.t.
Variable tr0 : trace.

Hypothesis Hcodec :
  forall c, forallb ok c = true ->
    str_encode (TextLogStream.encoding self0) (TextLogStream.errors self0) c
    = Ok (flat_map enc1 c).
Hypothesis Hlast : forall x, ok x = true -> endswith (enc1 x) x0a = N.eqb x LF.
Hypothesis Hne : forall x, ok x = true -> enc1 x <> [].
Hypothesis Hplat : platform_accepts self0.
Hypothesis Hwt : TextLogStream.write_through self0 = false.

Lemma endswith_snoc (c : str) (x : char) :
  ok x = true -> endswith (flat_map enc1 (c ++ [x])) x0a = N.eqb x LF.
Proof.
  intros Hx. rewrite flat_map_app. simpl. rewrite app_nil_r.
  rewrite endswith_app by now apply Hne. now apply Hlast.
Qed.

Lemma len_rest_le (u : str) :
  len (flat_map enc1 (snd (lf_pieces u))) <= len (flat_map enc1 u).
Proof.
  rewrite <- (lf_pieces_concat u) at 2. rewrite flat_map_app, len_app.
  pose proof (len_nonneg (flat_map enc1 (concat (fst (lf_pieces u))))). lia.
Qed.

Lemma within_limit_head (done c todo : str) :
  within_limit enc1 done (c ++ todo) -> within_limit enc1 done c.
Proof.
  unfold within_limit. rewrite flat_map_app, len_app.
  pose proof (len_nonneg (flat_map enc1 todo)). lia.
Qed.

Lemma within_limit_step (done c todo : str) :
  within_limit enc1 done (c ++ todo) -> within_limit enc1 (done ++ c) todo.
Proof.
  unfold within_limit. rewrite flat_map_app, len_app, lf_pieces_app.
  cbn [snd]. pose proof (len_rest_le (snd (lf_pieces done) ++ c)) as Hle.
  rewrite flat_map_app, len_app in Hle. lia.
Qed.

(** One chunk: its bytes join the pending ones, and all are logged as one
    record when the chunk ends in LF. *)
Lemma write_chunk_tracks (done c : str) :
  forallb ok c = true ->
  lf_only_last c ->
  within_limit enc1 done c ->
  hoare (tracks enc1 self0 tr0 done) (TextLogStream._write_chunk c)
        (fun r w => r = Ok tt /\ tracks enc1 self0 tr0 (done ++ c) w).
Proof.
  intros Hok Hlf Hlim [self tr] (Hcfg & Hcnt & Hjoin & Htr).
  simpl in Hcfg, Hcnt, Hjoin, Htr.
  assert (Hcfg' := Hcfg). destruct Hcfg' as (Hbuf & Henc & Herr & Hwt').
  rewrite write_chunk_eq, Henc, Herr, (Hcodec c Hok).
  set (b := flat_map enc1 c) in *.
  assert (Hcount : TextLogStream._pending_bytes_count self
                   = len (flat_map enc1 (snd (lf_pieces done)))).
  { rewrite <- Hjoin, len_bytes_join. exact Hcnt. }
  unfold within_limit in Hlim. fold b in Hlim.
  assert (Hfits : (TextLogStream._pending_bytes_count self + len b
                   >? MAX_BYTES_PER_WRITE) = false).
  { destruct (Z.gtb_spec (TextLogStream._pending_bytes_count self + len b)
                MAX_BYTES_PER_WRITE); [lia | reflexivity]. }
  rewrite Hfits. unfold ret. cbv beta iota zeta. cbn [fst snd].
  change (TextLogStream.write_through (appended b self))
    with (TextLogStream.write_through self).
  change (TextLogStream._pending_bytes_count (appended b self))
    with (TextLogStream._pending_bytes_count self + len b).
  rewrite Hwt', Hwt, Hfits, orb_false_r. cbn [orb].
  assert (Hjoin2 : bytes_join (TextLogStream._pending_bytes (appended b self))
                   = flat_map enc1 (snd (lf_pieces done) ++ c)).
  { simpl. rewrite bytes_join_snoc, Hjoin, flat_map_app. reflexivity. }
  destruct c as [| x c'] using rev_ind.
  - (* an empty chunk *)
    change (endswith b x0a) with false. cbn [fst snd].
    rewrite app_nil_r. unfold tracks. cbn [fst snd]. repeat split; auto.
    + now apply appended_count_ok.
    + rewrite Hjoin2, app_nil_r. reflexivity.
  - clear IHc'.
    rewrite forallb_app in Hok. apply andb_prop in Hok as [Hok' Hx].
    simpl in Hx. rewrite andb_true_r in Hx.
    pose proof (lf_only_last_snoc c' x Hlf) as Hno.
    subst b. rewrite (endswith_snoc c' x Hx).
    destruct (N.eqb_spec x LF) as [-> | Hxlf].
    + (* the chunk ends a line: flush *)
      rewrite (flush_logs_block (appended (flat_map enc1 (c' ++ [LF])) self) tr
                 (flat_map enc1 (snd (lf_pieces done) ++ c' ++ [LF]))).
      * cbn [fst snd]. split; [reflexivity |].
        unfold tracks. cbn [fst snd]. rewrite lf_pieces_app_line by exact Hno.
        cbn [fst snd]. repeat split; auto.
        rewrite map_app, Htr, <- app_assoc. do 2 f_equal.
        change (TextLogStream.buffer (appended _ self))
          with (TextLogStream.buffer self).
        simpl. now rewrite Hbuf.
      * intros tr' p tg msg.
        replace (TextLogStream.buffer (appended _ self))
          with (TextLogStream.buffer self) by reflexivity.
        rewrite Hbuf. apply Hplat.
      * exact Hjoin2.
      * rewrite app_assoc, flat_map_app. simpl. rewrite app_nil_r.
        intros Hnil. apply app_eq_nil in Hnil as [_ Hnil].
        now apply (Hne LF Hx).
    + (* the line goes on *)
      cbn [fst snd]. split; [reflexivity |].
      assert (Hno' : ~ In LF (c' ++ [x])).
      { intros Hin. apply in_app_or in Hin as [Hin | [Heq | []]]; auto. }
      unfold tracks. cbn [fst snd]. rewrite lf_pieces_app_no_lf by exact Hno'.
      cbn [fst snd]. repeat split; auto.
      now apply appended_count_ok.
Qed.

Lemma while_line_tracks (fuel : nat) :
  forall (line done : str),
    (length line <= fuel)%nat ->
    forallb ok line = true ->
    lf_only_last line ->
    within_limit enc1 done line ->
    hoare (tracks enc1 self0 tr0 done) (TextLogStream.while_line fuel line)
          (fun r w => r = Ok tt /\ tracks enc1 self0 tr0 (done ++ line) w).
Proof.
  induction fuel as [| fuel IH]; intros line done Hlen Hok Hlf Hlim.
  - destruct line as [| c l]; [| simpl in Hlen; lia].
    apply hoare_ret. rewrite app_nil_r. auto.
  - destruct line as [| c l].
    + apply hoare_ret. rewrite app_nil_r. auto.
    + cbn [TextLogStream.while_line].
      pose proof (slice_to_from MAX_CHARS_PER_WRITE (c :: l)) as Hsplit.
      pose proof (length_slice_from (c :: l) ltac:(discriminate)) as Hshort.
      set (chunk := slice_to MAX_CHARS_PER_WRITE (c :: l)) in *.
      set (rest := slice_from MAX_CHARS_PER_WRITE (c :: l)) in *.
      rewrite <- Hsplit in Hok, Hlf, Hlim |- *.
      rewrite forallb_app in Hok. apply andb_prop in Hok as [Hok1 Hok2].
      apply hoare_bind
        with (Q1 := fun r w => r = Ok tt
                               /\ tracks enc1 self0 tr0 (done ++ chunk) w).
      * apply write_chunk_tracks; auto.
        -- now apply lf_only_last_app_l in Hlf.
        -- now apply within_limit_head in Hlim.
      * intros a. eapply hoare_conseq.
        -- apply (IH rest (done ++ chunk)); auto.
           ++ lia.
           ++ now apply lf_only_last_app_r in Hlf.
           ++ now apply within_limit_step.
        -- intros w [_ Hw]. exact Hw.
        -- intros r w Hw. now rewrite app_assoc.
      * intros e w [Habs _]. discriminate.
Qed.

Lemma for_each_line_tracks (lines : list str) :
  forall done : str,
    Forall (fun l => forallb ok l = true) lines ->
    Forall lf_only_last lines ->
    within_limit enc1 done (concat lines) ->
    hoare (tracks enc1 self0 tr0 done)
          (for_each lines
             (fun line => TextLogStream.while_line (length line) line))
          (fun r w =>
             r = Ok tt /\ tracks enc1 self0 tr0 (done ++ concat lines) w).
Proof.
  induction lines as [| line lines IH]; intros done Hok Hlf Hlim.
  - apply hoare_ret. simpl. rewrite app_nil_r. auto.
  - inversion Hok as [| ? ? Hok1 Hok2]; subst.
    inversion Hlf as [| ? ? Hlf1 Hlf2]; subst.
    simpl concat in *. cbn [for_each].
    apply hoare_bind
      with (Q1 := fun r w => r = Ok tt
                             /\ tracks enc1 self0 tr0 (done ++ line) w).
    + apply while_line_tracks; auto. now apply within_limit_head in Hlim.
    + intros a. eapply hoare_conseq.
      * apply (IH (done ++ line)); auto. now apply within_limit_step.
      * intros w [_ Hw]. exact Hw.
      * intros r w Hw. now rewrite app_assoc.
    + intros e w [Habs _]. discriminate.
Qed.

(** A text that fits in one record, written to a stream with nothing
    pending: one record for each piece that ends in LF. *)
Lemma write_tracks (s : str) :
  forallb ok s = true ->
  len (flat_map enc1 s) <= MAX_BYTES_PER_WRITE ->
  hoare (tracks enc1 self0 tr0 []) (TextLogStream.write (PyStr s))
        (fun r w => r = Ok (len s) /\ tracks enc1 self0 tr0 s w).
Proof.
  intros Hok Hlen. unfold TextLogStream.write.
  change (isinstance_str (PyStr s)) with true.
  change (str___str__ (PyStr s)) with s. cbn [negb].
  apply hoare_bind
    with (Q1 := fun r w => r = Ok tt /\ tracks enc1 self0 tr0 s w).
  - eapply hoare_conseq.
    + apply (for_each_line_tracks (splitlines_keepends s) []).
      * apply forallb_concat. now rewrite concat_splitlines.
      * apply splitlines_lf_only_last.
      * rewrite concat_splitlines. exact Hlen.
    + auto.
    + intros r w Hw. simpl in Hw. now rewrite concat_splitlines in Hw.
  - intros a. apply hoare_ret. intros w [_ Hw]. auto.
  - intros e w [Habs _]. discriminate.
Qed.

End Pieces.

(** * Further properties *)

(** ** The escape of NUL bytes *)

Lemma escaped_app (a b : bytes) : escaped (a ++ b) = escaped a ++ escaped b.
Proof. unfold escaped, bytes_replace. apply flat_map_app. Qed.

Lemma escaped_cons (x : byte) (b : bytes) :
  escaped (x :: b) = (if Byte.eqb x x00 then [xc0; x80] else [x]) ++ escaped b.
Proof. reflexivity. Qed.

Lemma byte_eqb_refl (x : byte) : Byte.eqb x x = true.
Proof. now apply byte_dec_lb. Qed.

Lemma byte_eqb_neq (x y : byte) : x <> y -> Byte.eqb x y = false.
Proof.
  intros Hne. destruct (Byte.eqb x y) eqn:E; [| reflexivity].
  now apply byte_dec_bl in E.
Qed.

Lemma escaped_no_nul (b : bytes) : ~ In x00 (escaped b).
Proof.
  induction b as [| x b IH]; [auto |].
  rewrite escaped_cons. intros Hin. apply in_app_or in Hin as [Hin | Hin]; auto.
  destruct (Byte.eqb x x00) eqn:E.
  - destruct Hin as [Habs | [Habs | []]]; discriminate.
  - destruct Hin as [-> | []]. now rewrite byte_eqb_refl in E.
Qed.

Lemma escaped_nonempty (b : bytes) : b <> [] -> escaped b <> [].
Proof.
  destruct b as [| x b]; [congruence |]. intros _. rewrite escaped_cons.
  destruct (Byte.eqb x x00); discriminate.
Qed.

Lemma len_escaped (b : bytes) :
  len (escaped b) = len b + Z.of_nat (count_occ byte_eq_dec b x00).
Proof.
  induction b as [| x b IH]; [reflexivity |].
  rewrite escaped_cons, len_app, IH. cbn [count_occ].
  destruct (byte_eq_dec x x00) as [-> | Hne].
  - change (Byte.eqb x00 x00) with true. unfold len. simpl length. lia.
  - rewrite (byte_eqb_neq x x00 Hne). unfold len. simpl length. lia.
Qed.

Lemma escaped_plain (b : bytes) : ~ In x00 b -> escaped b = b.
Proof.
  induction b as [| x b IH]; intros Hno; [reflexivity |].
  rewrite escaped_cons, IH by (intros Hin; apply Hno; now right).
  rewrite byte_eqb_neq; [reflexivity |].
  intros ->. apply Hno. now left.
Qed.

Lemma escaped_injective (b1 : bytes) :
  forall b2 : bytes,
    ~ In xc0 b1 -> ~ In xc0 b2 -> escaped b1 = escaped b2 -> b1 = b2.
Proof.
  induction b1 as [| x b1 IH]; intros [| y b2] H1 H2 Heq.
  - reflexivity.
  - rewrite escaped_cons in Heq. destruct (Byte.eqb y x00); discriminate.
  - rewrite escaped_cons in Heq. destruct (Byte.eqb x x00); discriminate.
  - assert (Hx : x <> xc0) by (intros ->; apply H1; now left).
    assert (Hy : y <> xc0) by (intros ->; apply H2; now left).
    assert (H1' : ~ In xc0 b1) by (intros Hin; apply H1; now right).
    assert (H2' : ~ In xc0 b2) by (intros Hin; apply H2; now right).
    rewrite !escaped_cons in Heq.
    destruct (Byte.eqb x x00) eqn:Ex; destruct (Byte.eqb y x00) eqn:Ey;
      simpl in Heq.
    + apply byte_dec_bl in Ex, Ey. subst x y.
      injection Heq as Heq. f_equal. now apply IH.
    + injection Heq as Hhead _. congruence.
    + injection Heq as Hhead _. congruence.
    + injection Heq as -> Heq. f_equal. now apply IH.
Qed.

(** ** What BinaryLogStream.write hands to the platform *)

Lemma record_of_sink (sink : BinaryLogStream.t) (b : bytes) :
  b <> [] -> call_of_sink sink (record_of sink b).
Proof.
  intros Hb. repeat split.
  - now apply escaped_nonempty.
  - apply escaped_no_nul.
Qed.

(** X1: whatever its argument, [BinaryLogStream.write] keeps the calls
    already made and adds at most one; the call it adds has the priority
    and the tag of the stream and a payload that is not empty and holds no
    NUL byte. *)
Theorem binary_write_adds_one_clean_call
    (self : BinaryLogStream.t) (o : pyobj) (tr : trace) :
  exists added,
    snd (BinaryLogStream.write self o tr) = tr ++ added
    /\ (length added <= 1)%nat
    /\ Forall (call_of_sink self) added.
Proof.
  destruct (bytes_of_memoryview o) as [b | e] eqn:Hview.
  - rewrite (binary_write_view self o b tr Hview), binary_write_bytes.
    destruct b as [| x b].
    + exists []. rewrite app_nil_r. repeat split; auto.
    + exists [record_of self (x :: b)]. repeat split; auto.
      constructor; [| constructor]. now apply record_of_sink.
  - exists []. rewrite app_nil_r. repeat split; auto.
    destruct o; simpl in Hview; try discriminate; reflexivity.
Qed.

(** X2: the payload of a non-empty block is longer than the block by the
    number of its NUL bytes: never shorter, at most twice as long. *)
Theorem binary_write_payload_length
    (self : BinaryLogStream.t) (o : pyobj) (b : bytes) (tr : trace) :
  bytes_of_memoryview o = Ok b ->
  b <> [] ->
  exists c,
    snd (BinaryLogStream.write self o tr) = tr ++ [c]
    /\ len (call_msg c) = len b + Z.of_nat (count_occ byte_eq_dec b x00)
    /\ len b <= len (call_msg c) <= 2 * len b.
Proof.
  intros Hview Hne.
  rewrite (binary_write_view self o b tr Hview), binary_write_bytes.
  destruct b as [| x b]; [congruence |].
  exists (record_of self (x :: b)). split; [reflexivity |].
  unfold record_of. cbn [call_msg]. rewrite len_escaped.
  split; [reflexivity |].
  pose proof (count_occ_bound byte_eq_dec x00 (x :: b)) as Hbound.
  unfold len. lia.
Qed.

Lemma binary_write_payload_length_witness :
  exists c,
    snd (BinaryLogStream.write
           (BinaryLogStream.Make quiet_log_write 4 "python.stdout")
           (PyBytes [x00; x61; x00]) [])
    = [] ++ [c]
    /\ len (call_msg c) = 3 + 2
    /\ 3 <= len (call_msg c) <= 2 * 3.
Proof.
  apply (binary_write_payload_length
           (BinaryLogStream.Make quiet_log_write 4 "python.stdout")
           (PyBytes [x00; x61; x00]) [x00; x61; x00] []).
  - reflexivity.
  - discriminate.
Defined.

(** X3: a non-empty block reaches the platform byte for byte exactly when
    it holds no NUL byte. *)
Theorem binary_write_verbatim_iff_no_nul
    (self : BinaryLogStream.t) (o : pyobj) (b : bytes) (tr : trace) :
  bytes_of_memoryview o = Ok b ->
  b <> [] ->
  snd (BinaryLogStream.write self o tr)
  = tr ++ [LogCall (BinaryLogStream.prio self) (BinaryLogStream.tag self) b]
  <-> ~ In x00 b.
Proof.
  intros Hview Hne.
  rewrite (binary_write_view self o b tr Hview), binary_write_bytes.
  destruct b as [| x b]; [congruence |]. cbn [snd]. split.
  - intros Heq. apply app_inv_head in Heq.
    assert (Hmsg : escaped (x :: b) = x :: b)
      by (injection Heq as Heq; exact Heq).
    rewrite <- Hmsg. apply escaped_no_nul.
  - intros Hno. unfold record_of. now rewrite escaped_plain.
Qed.

Lemma binary_write_verbatim_iff_no_nul_witness :
  snd (BinaryLogStream.write
         (BinaryLogStream.Make quiet_log_write 4 "python.stdout")
         (PyBytes [x61; x62]) [])
  = [] ++ [LogCall 4 "python.stdout" [x61; x62]]
  <-> ~ In x00 [x61; x62].
Proof.
  apply (binary_write_verbatim_iff_no_nul
           (BinaryLogStream.Make quiet_log_write 4 "python.stdout")
           (PyBytes [x61; x62]) [x61; x62] []).
  - reflexivity.
  - discriminate.
Defined.

(** X4: blocks free of the byte 0xC0, as all UTF-8 text is, are told apart
    by what the platform receives: two different ones never leave the same
    log.  (Without the condition the block 0x00 and the block 0xC0 0x80
    give one payload.) *)
Theorem binary_write_tells_blocks_apart
    (self : BinaryLogStream.t) (b1 b2 : bytes) (tr : trace) :
  ~ In xc0 b1 ->
  ~ In xc0 b2 ->
  b1 <> b2 ->
  snd (BinaryLogStream.write self (PyBytes b1) tr)
  <> snd (BinaryLogStream.write self (PyBytes b2) tr).
Proof.
  intros H1 H2 Hdiff. rewrite !binary_write_bytes.
  destruct b1 as [| x1 b1]; destruct b2 as [| x2 b2]; cbn [snd]; intros Heq.
  - now apply Hdiff.
  - rewrite <- (app_nil_r tr) in Heq at 1.
    apply app_inv_head in Heq. discriminate.
  - rewrite <- (app_nil_r tr) in Heq at 2.
    apply app_inv_head in Heq. discriminate.
  - apply app_inv_head in Heq.
    assert (Hmsg : escaped (x1 :: b1) = escaped (x2 :: b2))
      by (injection Heq as Heq; exact Heq).
    apply Hdiff. now apply escaped_injective.
Qed.

Lemma binary_write_tells_blocks_apart_witness :
  let sink := BinaryLogStream.Make quiet_log_write 4 "python.stdout" in
  snd (BinaryLogStream.write sink (PyBytes [x61; x00]) [])
  <> snd (BinaryLogStream.write sink (PyBytes [x61; x62]) []).
Proof.
  intros sink.
  apply (binary_write_tells_blocks_apart sink [x61; x00] [x61; x62] []).
  - intros [H | [H | []]]; discriminate.
  - intros [H | [H | []]]; discriminate.
  - discriminate.
Defined.

(** ** What a text stream hands to the platform *)

Section Calls.

Context `{Codec}.

Variable self0 : TextLogStream.t.
Variable tr0 : trace.

Lemma flush_logs_from :
  hoare (logs_from self0 tr0) TextLogStream.flush
        (fun _ w => logs_from self0 tr0 w).
Proof.
  intros [self tr] (Hcfg & added & Htr & Hall). simpl in Hcfg, Htr.
  assert (Hbuf : TextLogStream.buffer self = TextLogStream.buffer self0)
    by apply Hcfg.
  rewrite flush_eq.
  destruct (bytes_join (TextLogStream._pending_bytes self)) as [| x block].
  - split; [exact Hcfg | now exists added].
  - assert (Hgrow : exists added',
               tr ++ [record_of (TextLogStream.buffer self) (x :: block)]
               = tr0 ++ added'
               /\ Forall (call_of_sink (TextLogStream.buffer self0)) added').
    { exists (added ++ [record_of (TextLogStream.buffer self) (x :: block)]).
      rewrite Htr, <- app_assoc. split; [reflexivity |].
      apply Forall_app. split; [exact Hall |].
      constructor; [| constructor]. rewrite Hbuf.
      apply record_of_sink. discriminate. }
    cbv zeta.
    destruct (BinaryLogStream.android_log_write _ _ _ _ _); cbn [fst snd];
      (split; [exact Hcfg | exact Hgrow]).
Qed.

Lemma write_chunk_logs_from (c : str) :
  hoare (logs_from self0 tr0) (TextLogStream._write_chunk c)
        (fun _ w => logs_from self0 tr0 w).
Proof.
  intros [self tr] Hw. rewrite write_chunk_eq.
  destruct (str_encode _ _ c) as [b | e]; [| exact Hw].
  set (m := if TextLogStream._pending_bytes_count self + len b
                >? MAX_BYTES_PER_WRITE
             then TextLogStream.flush else ret tt).
  assert (H1 : logs_from self0 tr0 (snd (m (self, tr)))).
  { subst m. destruct (_ >? _);
      [apply (flush_logs_from (self, tr) Hw) | exact Hw]. }
  destruct (m (self, tr)) as [[u | e] [self1 tr1]]; [| exact H1].
  cbn [fst snd] in H1 |- *. cbv zeta.
  assert (H2 : logs_from self0 tr0 (appended b self1, tr1)) by exact H1.
  destruct (_ || _ || _); [| exact H2].
  apply (flush_logs_from (appended b self1, tr1) H2).
Qed.

Lemma while_line_logs_from (fuel : nat) (line : str) :
  hoare (logs_from self0 tr0) (TextLogStream.while_line fuel line)
        (fun _ w => logs_from self0 tr0 w).
Proof.
  revert line. induction fuel as [| fuel IH]; intros [| c line]; simpl;
    try (apply hoare_ret; auto); try (apply hoare_raise; auto).
  apply hoare_bind with (Q1 := fun _ w => logs_from self0 tr0 w).
  - apply write_chunk_logs_from.
  - intros _. apply IH.
  - auto.
Qed.

Lemma write_logs_from (o : pyobj) :
  hoare (logs_from self0 tr0) (TextLogStream.write o)
        (fun _ w => logs_from self0 tr0 w).
Proof.
  unfold TextLogStream.write. destruct (negb (isinstance_str o)).
  - apply hoare_raise. auto.
  - apply hoare_bind with (Q1 := fun _ w => logs_from self0 tr0 w).
    + apply hoare_for_each_inv. intros line _. apply while_line_logs_from.
    + intros _. apply hoare_ret. auto.
    + auto.
Qed.

Lemma run_ops_logs_from (ops : list op) (w : TextLogStream.world) :
  logs_from self0 tr0 w -> logs_from self0 tr0 (run_ops ops w).
Proof.
  unfold run_ops. revert w.
  induction ops as [| o ops IH]; intros w Hw; simpl; [exact Hw |].
  apply IH. destruct o as [x |]; simpl.
  - apply (write_logs_from x w Hw).
  - apply (flush_logs_from w Hw).
Qed.

End Calls.

(** X5: a sequence of [write] and [flush] calls on a text stream, returning
    or raising, keeps the calls already made and adds only calls with the
    priority and the tag of the stream and a payload that is not empty and
    holds no NUL byte; the settings of the stream stay as they were. *)
Theorem text_stream_adds_clean_calls `{Codec}
    (ops : list op) (self : TextLogStream.t) (tr : trace) :
  same_config self (fst (run_ops ops (self, tr)))
  /\ exists added,
       snd (run_ops ops (self, tr)) = tr ++ added
       /\ Forall (call_of_sink (TextLogStream.buffer self)) added.
Proof.
  apply (run_ops_logs_from self tr ops (self, tr)).
  split; [repeat split |]. exists []. now rewrite app_nil_r.
Qed.

(** ** Bounds on what is pending and on the payloads *)

Lemma len_escaped_le (b : bytes) : len (escaped b) <= 2 * len b.
Proof.
  rewrite len_escaped.
  pose proof (count_occ_bound byte_eq_dec x00 b). unfold len. lia.
Qed.

(** X6: with a codec that makes at most four bytes of a character, every
    sequence of [write] and [flush] calls, from a state where at most
    [MAX_BYTES_PER_WRITE] bytes are pending, leaves at most that many
    pending, and no payload is longer than twice the limit. *)
Theorem pending_and_payloads_bounded `{Codec}
    (self0 : TextLogStream.t) (ops : list op) (w : TextLogStream.world) :
  (forall c b,
     str_encode (TextLogStream.encoding self0) (TextLogStream.errors self0) c
     = Ok b ->
     len b <= 4 * len c) ->
  bounded self0 w ->
  TextLogStream._pending_bytes_count (fst (run_ops ops w))
  <= MAX_BYTES_PER_WRITE
  /\ Forall (fun c => len (call_msg c) <= 2 * MAX_BYTES_PER_WRITE)
       (snd (run_ops ops w)).
Proof.
  intros Hfour Hw.
  destruct (blocks_within_limit self0 Hfour ops w Hw) as (_ & _ & Hle & Hall).
  split; [exact Hle |].
  eapply Forall_impl; [| exact Hall].
  intros c (b & -> & Hb). pose proof (len_escaped_le b). lia.
Qed.

Lemma utf8_strict_four (c : str) :
  forall b, utf8_encode "strict" c = Ok b -> len b <= 4 * len c.
Proof.
  induction c as [| x c IH]; intros b Hb.
  - injection Hb as <-. reflexivity.
  - simpl in Hb. unfold utf8_encode_char in Hb.
    destruct (is_surrogate x); [discriminate |].
    destruct (utf8_encode "strict" c) as [bs |]; [| discriminate].
    injection Hb as <-. specialize (IH bs eq_refl).
    rewrite len_app. unfold len in *. simpl length.
    assert (Hx : (length (utf8_bytes x) <= 4)%nat).
    { unfold utf8_bytes.
      destruct (x <? 128)%N; [simpl; lia |].
      destruct (x <? 2048)%N; [simpl; lia |].
      destruct (x <? 65536)%N; simpl; lia. }
    lia.
Qed.

Lemma pending_and_payloads_bounded_witness :
  let self := stdout_stream "strict" in
  let ops := [OpWrite (PyStr (seq_mul [0%N] 3000)); OpFlush] in
  TextLogStream._pending_bytes_count (fst (run_ops ops (self, [])))
  <= MAX_BYTES_PER_WRITE
  /\ Forall (fun c => len (call_msg c) <= 2 * MAX_BYTES_PER_WRITE)
       (snd (run_ops ops (self, []))).
Proof.
  intros self ops.
  apply (pending_and_payloads_bounded self ops (self, [])).
  - intros c b Hb. now apply utf8_strict_four.
  - split; [repeat split |]. split; [reflexivity |].
    split; [discriminate | constructor].
Defined.

(** ** When nothing stays pending *)

Lemma cleared_is_idle (self : TextLogStream.t) : idle (cleared self).
Proof. split; reflexivity. Qed.

Lemma suffix_ends_like {A : Type} (a b c : list A) (x : A) :
  a ++ b = c ++ [x] -> b <> [] -> exists b', b = b' ++ [x].
Proof.
  intros Heq Hb. destruct b as [| y b] using rev_ind; [congruence |].
  clear IHb. rewrite app_assoc in Heq. apply app_inj_tail in Heq as [_ ->].
  now exists b.
Qed.

(** The lines of [splitlines] are not empty. *)
Lemma splitlines_from_nonempty (n : nat) :
  forall (s cur : str),
    (length s <= n)%nat ->
    Forall (fun line => line <> []) (splitlines_from cur s).
Proof.
  assert (Hrev : forall (cur : str) (x : char), rev (x :: cur) <> []).
  { intros cur x Habs. simpl in Habs. now apply app_eq_nil in Habs as [_ ?]. }
  induction n as [| n IH]; intros s cur Hlen.
  - destruct s as [| c rest]; [| simpl in Hlen; lia].
    simpl. destruct cur as [| x cur]; constructor; [apply Hrev | constructor].
  - destruct s as [| c rest].
    + simpl. destruct cur as [| x cur]; constructor;
        [apply Hrev | constructor].
    + simpl in Hlen. cbn [splitlines_from].
      destruct (N.eqb c CR); [destruct rest as [| d rest'];
                               [| destruct (N.eqb d LF)] |
                              destruct (is_linebreak c)];
        try (constructor; [apply Hrev |]); try constructor;
        apply IH; simpl in Hlen |- *; lia.
Qed.

Lemma splitlines_nonempty (s : str) :
  Forall (fun line => line <> []) (splitlines_keepends s).
Proof. apply (splitlines_from_nonempty (length s)). lia. Qed.

Lemma concat_nonempty {A : Type} (ls : list (list A)) :
  Forall (fun l => l <> []) ls -> ls <> [] -> concat ls <> [].
Proof.
  intros Hall Hls. destruct ls as [| l ls]; [congruence |].
  inversion Hall as [| ? ? Hl _]; subst. simpl.
  intros Habs. now apply app_eq_nil in Habs as [? _].
Qed.

Section LastChunk.

Context `{Codec}.

Variable self0 : TextLogStream.t.

Hypothesis Hplatform : platform_accepts self0.

(** Unless the stream writes through, the bytes of a text that ends in LF
    end in 0x0A. *)
Hypothesis Hnewline :
  TextLogStream.write_through self0 = false ->
  forall c b,
    str_encode (TextLogStream.encoding self0) (TextLogStream.errors self0)
      (c ++ [LF])
    = Ok b ->
    endswith b x0a = true.

Lemma write_chunk_idle (c : str) :
  (exists b,
     str_encode (TextLogStream.encoding self0) (TextLogStream.errors self0) c
     = Ok b) ->
  flushes_after self0 c ->
  hoare (configured_as self0) (TextLogStream._write_chunk c)
        (fun r w => r = Ok tt /\ configured_as self0 w /\ idle (fst w)).
Proof.
  intros [b Hb] Hflush [self tr] Hc. unfold configured_as in *. simpl in Hc.
  rewrite write_chunk_eq.
  assert (Hc' := Hc). destruct Hc' as (Hbuf & Henc & Herr & Hwt).
  rewrite Henc, Herr, Hb.
  set (m := if TextLogStream._pending_bytes_count self + len b
                >? MAX_BYTES_PER_WRITE
             then TextLogStream.flush else ret tt).
  assert (H1 : fst (m (self, tr)) = Ok tt
               /\ same_config self0 (fst (snd (m (self, tr))))).
  { subst m. destruct (_ >? _).
    - apply (flush_returns self0 Hplatform (self, tr)). exact Hc.
    - split; [reflexivity | exact Hc]. }
  destruct (m (self, tr)) as [[u | e] [self1 tr1]];
    simpl in H1; destruct H1 as [H1 H2]; [| discriminate].
  cbv zeta. cbn [fst snd].
  assert (Hcond : TextLogStream.write_through (appended b self1)
                  || endswith b x0a
                  || (TextLogStream._pending_bytes_count (appended b self1)
                      >? MAX_BYTES_PER_WRITE) = true).
  { replace (TextLogStream.write_through (appended b self1))
      with (TextLogStream.write_through self0) by (symmetry; apply H2).
    destruct (TextLogStream.write_through self0) eqn:Hthrough;
      [reflexivity |].
    destruct Hflush as [Habs | [c' ->]]; [congruence |].
    rewrite (Hnewline eq_refl c' b Hb). reflexivity. }
  rewrite Hcond.
  destruct (flush_accepted self0 Hplatform (appended b self1) tr1 H2)
    as [tr' ->].
  cbn [fst snd]. repeat split; apply H2.
Qed.

Lemma while_line_idle (fuel : nat) :
  forall line : str,
    (length line <= fuel)%nat ->
    encodes_parts self0 line ->
    line <> [] ->
    flushes_after self0 line ->
    hoare (configured_as self0) (TextLogStream.while_line fuel line)
          (fun r w => r = Ok tt /\ configured_as self0 w /\ idle (fst w)).
Proof.
  induction fuel as [| fuel IH]; intros [| c l] Hlen Henc Hne Hflush;
    try congruence; [simpl in Hlen; lia |].
  cbn [TextLogStream.while_line].
  pose proof (slice_to_from MAX_CHARS_PER_WRITE (c :: l)) as Hsplit.
  pose proof (length_slice_from (c :: l) ltac:(discriminate)) as Hshort.
  set (chunk := slice_to MAX_CHARS_PER_WRITE (c :: l)) in *.
  set (rest := slice_from MAX_CHARS_PER_WRITE (c :: l)) in *.
  assert (Hchunk : exists b,
             str_encode (TextLogStream.encoding self0)
               (TextLogStream.errors self0) chunk = Ok b)
    by (apply Henc, segment_slice_to).
  assert (Hrest : encodes_parts self0 rest).
  { intros x Hx. apply Henc.
    eapply segment_trans; [exact Hx | apply segment_slice_from]. }
  destruct rest as [| r rest'] eqn:Erest.
  - (* the last chunk of the line *)
    rewrite app_nil_r in Hsplit.
    apply hoare_bind
      with (Q1 := fun r w => r = Ok tt /\ configured_as self0 w
                             /\ idle (fst w)).
    + apply write_chunk_idle; [exact Hchunk | now rewrite Hsplit].
    + intros a. destruct fuel; apply hoare_ret; intros w (_ & Hw); auto.
    + intros e w [Habs _]. discriminate.
  - apply hoare_bind
      with (Q1 := fun r w => r = Ok tt /\ configured_as self0 w).
    + now apply write_chunk_returns.
    + intros a. eapply hoare_conseq.
      * apply (IH (r :: rest')); auto; [lia | discriminate |].
        destruct Hflush as [Hthrough | [c' Hc']]; [now left | right].
        rewrite <- Hsplit in Hc'.
        apply (suffix_ends_like chunk (r :: rest') c' LF Hc'). discriminate.
      * intros w [_ Hw]. exact Hw.
      * auto.
    + intros e w [Habs _]. discriminate.
Qed.

Lemma for_each_line_idle (lines : list str) :
  Forall (fun line => line <> []) lines ->
  lines <> [] ->
  encodes_parts self0 (concat lines) ->
  flushes_after self0 (concat lines) ->
  hoare (configured_as self0)
        (for_each lines
           (fun line => TextLogStream.while_line (length line) line))
        (fun r w => r = Ok tt /\ configured_as self0 w /\ idle (fst w)).
Proof.
  induction lines as [| line lines IH]; intros Hall Hne Henc Hflush;
    [congruence |].
  inversion Hall as [| ? ? Hline Hall']; subst.
  assert (Henc1 : encodes_parts self0 line).
  { intros x Hx. apply Henc. eapply segment_trans; [exact Hx |].
    exists [], (concat lines). reflexivity. }
  assert (Henc2 : encodes_parts self0 (concat lines)).
  { intros x Hx. apply Henc. eapply segment_trans; [exact Hx |].
    exists line, []. simpl. now rewrite app_nil_r. }
  cbn [for_each]. destruct lines as [| line2 lines'].
  - (* the last line *)
    simpl in Hflush. rewrite app_nil_r in Hflush.
    apply hoare_bind
      with (Q1 := fun r w => r = Ok tt /\ configured_as self0 w
                             /\ idle (fst w)).
    + apply while_line_idle; auto.
    + intros a. apply hoare_ret. intros w (_ & Hw). auto.
    + intros e w [Habs _]. discriminate.
  - apply hoare_bind
      with (Q1 := fun r w => r = Ok tt /\ configured_as self0 w).
    + apply while_line_returns; auto.
    + intros a. eapply hoare_conseq.
      * apply IH; auto; [discriminate |].
        destruct Hflush as [Hthrough | [c' Hc']]; [now left | right].
        simpl concat in Hc'.
        apply (suffix_ends_like line (concat (line2 :: lines')) c' LF Hc').
        apply concat_nonempty; [exact Hall' | discriminate].
      * intros w [_ Hw]. exact Hw.
      * auto.
    + intros e w [Habs _]. discriminate.
Qed.

Lemma write_idle (s : str) :
  s <> [] ->
  encodes_parts self0 s ->
  flushes_after self0 s ->
  hoare (configured_as self0) (TextLogStream.write (PyStr s))
        (fun r w => r = Ok (len s) /\ idle (fst w)).
Proof.
  intros Hne Henc Hflush. unfold TextLogStream.write.
  change (isinstance_str (PyStr s)) with true.
  change (str___str__ (PyStr s)) with s. cbn [negb].
  apply hoare_bind
    with (Q1 := fun r w => r = Ok tt /\ configured_as self0 w
                           /\ idle (fst w)).
  - apply for_each_line_idle.
    + apply splitlines_nonempty.
    + intros Habs. apply Hne. rewrite <- (concat_splitlines s), Habs.
      reflexivity.
    + now rewrite concat_splitlines.
    + now rewrite concat_splitlines.
  - intros a. apply hoare_ret. intros w (_ & _ & Hw). auto.
  - intros e w [Habs _]. discriminate.
Qed.

End LastChunk.

(** X7: a newline always causes a flush.  When the text ends in LF, the
    codec encodes its parts, ending the bytes of a text that ends in LF with
    0x0A, and the platform accepts the calls, [write] returns the length of
    the text and leaves nothing pending, whatever was pending before. *)
Theorem newline_leaves_nothing_pending `{Codec}
    (self : TextLogStream.t) (tr : trace) (t : str) :
  platform_accepts self ->
  encodes_parts self (t ++ [LF]) ->
  (forall c b,
     str_encode (TextLogStream.encoding self) (TextLogStream.errors self)
       (c ++ [LF])
     = Ok b ->
     endswith b x0a = true) ->
  fst (TextLogStream.write (PyStr (t ++ [LF])) (self, tr))
  = Ok (len (t ++ [LF]))
  /\ idle (fst (snd (TextLogStream.write (PyStr (t ++ [LF])) (self, tr)))).
Proof.
  intros Hplat Henc Hnewline.
  apply (write_idle self Hplat (fun _ => Hnewline) (t ++ [LF])).
  - intros Habs. now apply app_eq_nil in Habs as [_ ?].
  - exact Henc.
  - right. now exists t.
  - repeat split.
Qed.

(** X8: a stream that writes through keeps nothing pending.  When the text
    is not empty, the codec encodes its parts and the platform accepts the
    calls, [write] returns the length of the text and leaves nothing
    pending, whatever was pending before. *)
Theorem write_through_leaves_nothing_pending `{Codec}
    (self : TextLogStream.t) (tr : trace) (s : str) :
  TextLogStream.write_through self = true ->
  platform_accepts self ->
  encodes_parts self s ->
  s <> [] ->
  fst (TextLogStream.write (PyStr s) (self, tr)) = Ok (len s)
  /\ idle (fst (snd (TextLogStream.write (PyStr s) (self, tr)))).
Proof.
  intros Hwt Hplat Henc Hne.
  apply (write_idle self Hplat) with (s := s); auto.
  - intros Hoff. rewrite Hwt in Hoff. discriminate.
  - now left.
  - repeat split.
Qed.

Lemma utf8_encode_newline (errors : string) (c : str) :
  forall b, utf8_encode errors (c ++ [LF]) = Ok b -> endswith b x0a = true.
Proof.
  induction c as [| x c IH]; intros b Hb.
  - injection Hb as <-. reflexivity.
  - simpl in Hb.
    destruct (utf8_encode_char errors x) as [bx |]; [| discriminate].
    destruct (utf8_encode errors (c ++ [LF])) as [bs |]; [| discriminate].
    injection Hb as <-. specialize (IH bs eq_refl).
    rewrite endswith_app; [exact IH |].
    intros ->. discriminate IH.
Qed.

Lemma newline_leaves_nothing_pending_witness :
  let self :=
    TextLogStream.Make (BinaryLogStream.Make quiet_log_write 4 "python.stdout")
      "UTF-8" "backslashreplace" false [list_byte_of_string "xx"] 2 in
  let s := str_of_string "f" ++ [LF] in
  fst (TextLogStream.write (PyStr s) (self, [])) = Ok (len s)
  /\ idle (fst (snd (TextLogStream.write (PyStr s) (self, [])))).
Proof.
  intros self s.
  apply (newline_leaves_nothing_pending self [] (str_of_string "f")).
  - intros tr p tg msg. reflexivity.
  - intros c _. apply utf8_backslashreplace_total.
  - intros c b Hb. now apply (utf8_encode_newline "backslashreplace" c).
Defined.

Lemma write_through_leaves_nothing_pending_witness :
  let self :=
    TextLogStream.Make (BinaryLogStream.Make quiet_log_write 4 "python.stdout")
      "UTF-8" "backslashreplace" true [list_byte_of_string "xx"] 2 in
  let s := str_of_string "d" ++ [LF] ++ str_of_string "e" in
  fst (TextLogStream.write (PyStr s) (self, [])) = Ok (len s)
  /\ idle (fst (snd (TextLogStream.write (PyStr s) (self, [])))).
Proof.
  intros self s.
  apply (write_through_leaves_nothing_pending self [] s).
  - reflexivity.
  - intros tr p tg msg. reflexivity.
  - intros c _. apply utf8_backslashreplace_total.
  - discriminate.
Defined.

(** ** No byte is lost *)

Section Conservation.

Context `{Codec}.

Variable ok : char -> bool.
Variable enc1 : char -> bytes.
Variable self0 : TextLogStream.t.
Variable tr0 : trace.
Variable pending0 : bytes.

Hypothesis Hcodec :
  forall c, forallb ok c = true ->
    str_encode (TextLogStream.encoding self0) (TextLogStream.errors self0) c
    = Ok (flat_map enc1 c).
Hypothesis Hplat : platform_accepts self0.

Lemma flush_carries (sent : bytes) :
  hoare (carries self0 tr0 pending0 sent) TextLogStream.flush
        (fun r w => r = Ok tt /\ carries self0 tr0 pending0 sent w).
Proof.
  intros [self tr] (Hcfg & blocks & Htr & Hall & Hsum).
  simpl in Hcfg, Htr, Hsum.
  assert (Hbuf : TextLogStream.buffer self = TextLogStream.buffer self0)
    by apply Hcfg.
  rewrite flush_eq.
  destruct (bytes_join (TextLogStream._pending_bytes self)) as [| x block]
    eqn:Hjoin.
  - cbn [fst snd]. split; [reflexivity |]. split; [exact Hcfg |].
    exists blocks. repeat split; auto.
  - cbv zeta. rewrite Hbuf, Hplat. cbn [fst snd].
    split; [reflexivity |]. split; [exact Hcfg |].
    exists (blocks ++ [x :: block]). repeat split.
    + now rewrite map_app, app_assoc, <- Htr.
    + apply Forall_app. split; [exact Hall |].
      constructor; [discriminate | constructor].
    + rewrite bytes_join_snoc. simpl bytes_join at 2.
      now rewrite app_nil_r.
Qed.

Lemma write_chunk_carries (sent : bytes) (c : str) :
  forallb ok c = true ->
  hoare (carries self0 tr0 pending0 sent) (TextLogStream._write_chunk c)
        (fun r w =>
           r = Ok tt
           /\ carries self0 tr0 pending0 (sent ++ flat_map enc1 c) w).
Proof.
  intros Hok [self tr] Hw. rewrite write_chunk_eq.
  assert (Hcfg : same_config self0 self) by apply Hw.
  destruct Hcfg as (Hbuf & Henc & Herr & Hwt).
  rewrite Henc, Herr, (Hcodec c Hok).
  set (b := flat_map enc1 c).
  set (m := if TextLogStream._pending_bytes_count self + len b
                >? MAX_BYTES_PER_WRITE
             then TextLogStream.flush else ret tt).
  assert (H1 : fst (m (self, tr)) = Ok tt
               /\ carries self0 tr0 pending0 sent (snd (m (self, tr)))).
  { subst m. destruct (_ >? _).
    - apply (flush_carries sent (self, tr) Hw).
    - split; [reflexivity | exact Hw]. }
  destruct (m (self, tr)) as [[u | e] [self1 tr1]];
    cbn [fst snd] in H1; destruct H1 as [H1 H2]; [| discriminate].
  cbv zeta. cbn [fst snd].
  assert (H3 : carries self0 tr0 pending0 (sent ++ b) (appended b self1, tr1)).
  { destruct H2 as (Hcfg1 & blocks & Htr1 & Hall1 & Hsum1).
    cbn [fst snd] in Hcfg1, Htr1, Hsum1.
    split; [exact Hcfg1 |]. exists blocks. repeat split; auto.
    cbn [fst]. simpl TextLogStream._pending_bytes.
    now rewrite bytes_join_snoc, !app_assoc, Hsum1. }
  destruct (_ || _ || _).
  - apply (flush_carries (sent ++ b) (appended b self1, tr1) H3).
  - split; [reflexivity | exact H3].
Qed.

Lemma while_line_carries (fuel : nat) :
  forall (line : str) (sent : bytes),
    (length line <= fuel)%nat ->
    forallb ok line = true ->
    hoare (carries self0 tr0 pending0 sent)
          (TextLogStream.while_line fuel line)
          (fun r w =>
             r = Ok tt
             /\ carries self0 tr0 pending0 (sent ++ flat_map enc1 line) w).
Proof.
  induction fuel as [| fuel IH]; intros line sent Hlen Hok.
  - destruct line as [| c l]; [| simpl in Hlen; lia].
    apply hoare_ret. simpl. rewrite app_nil_r. auto.
  - destruct line as [| c l].
    + apply hoare_ret. simpl. rewrite app_nil_r. auto.
    + cbn [TextLogStream.while_line].
      pose proof (slice_to_from MAX_CHARS_PER_WRITE (c :: l)) as Hsplit.
      pose proof (length_slice_from (c :: l) ltac:(discriminate)) as Hshort.
      set (chunk := slice_to MAX_CHARS_PER_WRITE (c :: l)) in *.
      set (rest := slice_from MAX_CHARS_PER_WRITE (c :: l)) in *.
      rewrite <- Hsplit in Hok |- *.
      rewrite forallb_app in Hok. apply andb_prop in Hok as [Hok1 Hok2].
      apply hoare_bind
        with (Q1 := fun r w =>
                      r = Ok tt
                      /\ carries self0 tr0 pending0
                           (sent ++ flat_map enc1 chunk) w).
      * now apply write_chunk_carries.
      * intros a. eapply hoare_conseq.
        -- apply (IH rest (sent ++ flat_map enc1 chunk)); [lia | exact Hok2].
        -- intros w [_ Hw]. exact Hw.
        -- intros r w Hw. now rewrite flat_map_app, app_assoc.
      * intros e w [Habs _]. discriminate.
Qed.

Lemma for_each_line_carries (lines : list str) :
  forall sent : bytes,
    Forall (fun l => forallb ok l = true) lines ->
    hoare (carries self0 tr0 pending0 sent)
          (for_each lines
             (fun line => TextLogStream.while_line (length line) line))
          (fun r w =>
             r = Ok tt
             /\ carries self0 tr0 pending0
                  (sent ++ flat_map enc1 (concat lines)) w).
Proof.
  induction lines as [| line lines IH]; intros sent Hok.
  - apply hoare_ret. simpl. rewrite app_nil_r. auto.
  - inversion Hok as [| ? ? Hok1 Hok2]; subst. cbn [for_each].
    apply hoare_bind
      with (Q1 := fun r w =>
                    r = Ok tt
                    /\ carries self0 tr0 pending0
                         (sent ++ flat_map enc1 line) w).
    + now apply while_line_carries.
    + intros a. eapply hoare_conseq.
      * apply (IH (sent ++ flat_map enc1 line) Hok2).
      * intros w [_ Hw]. exact Hw.
      * intros r w Hw. simpl concat. now rewrite flat_map_app, app_assoc.
    + intros e w [Habs _]. discriminate.
Qed.

Lemma write_carries (s : str) :
  forallb ok s = true ->
  hoare (carries self0 tr0 pending0 []) (TextLogStream.write (PyStr s))
        (fun r w =>
           r = Ok (len s)
           /\ carries self0 tr0 pending0 (flat_map enc1 s) w).
Proof.
  intros Hok. unfold TextLogStream.write.
  change (isinstance_str (PyStr s)) with true.
  change (str___str__ (PyStr s)) with s. cbn [negb].
  apply hoare_bind
    with (Q1 := fun r w =>
                  r = Ok tt
                  /\ carries self0 tr0 pending0 (flat_map enc1 s) w).
  - eapply hoare_conseq.
    + apply (for_each_line_carries (splitlines_keepends s) []).
      apply forallb_concat. now rewrite concat_splitlines.
    + auto.
    + intros r w Hw. simpl in Hw. now rewrite concat_splitlines in Hw.
  - intros a. apply hoare_ret. intros w [_ Hw]. auto.
  - intros e w [Habs _]. discriminate.
Qed.

End Conservation.

(** X9: no byte is lost, repeated or moved.  When the platform accepts the
    calls, writing a text without surrogates to a UTF-8 stream adds records
    for non-empty blocks such that these blocks, in order, followed by what
    is pending afterwards, are what was pending before followed by the UTF-8
    bytes of the text; this holds for texts of any length and with or
    without [write_through]. *)
Theorem write_conserves_bytes
    (self : TextLogStream.t) (tr : trace) (s : str) :
  is_utf8_name (TextLogStream.encoding self) = true ->
  platform_accepts self ->
  forallb (fun c => negb (is_surrogate c)) s = true ->
  let after := snd (TextLogStream.write (PyStr s) (self, tr)) in
  fst (TextLogStream.write (PyStr s) (self, tr)) = Ok (len s)
  /\ exists blocks,
       snd after = tr ++ map (record_of (TextLogStream.buffer self)) blocks
       /\ Forall (fun b => b <> []) blocks
       /\ bytes_join blocks
            ++ bytes_join (TextLogStream._pending_bytes (fst after))
          = bytes_join (TextLogStream._pending_bytes self)
            ++ flat_map utf8_bytes s.
Proof.
  intros Hutf Hplat Hok after.
  assert (Hcodec : forall c,
             forallb (fun c => negb (is_surrogate c)) c = true ->
             str_encode (TextLogStream.encoding self)
               (TextLogStream.errors self) c
             = Ok (flat_map utf8_bytes c)).
  { intros c Hc. unfold str_encode, python_codec. rewrite Hutf.
    now apply utf8_encode_plain. }
  assert (Hstart : carries self tr
                     (bytes_join (TextLogStream._pending_bytes self)) []
                     (self, tr)).
  { split; [repeat split |]. exists []. cbn [fst snd map bytes_join concat].
    rewrite !app_nil_r. repeat split; auto. }
  destruct (write_carries (fun c => negb (is_surrogate c)) utf8_bytes self tr
              (bytes_join (TextLogStream._pending_bytes self))
              Hcodec Hplat s Hok (self, tr) Hstart)
    as (Hret & _ & blocks & Htr & Hall & Hsum).
  split; [exact Hret |]. exists blocks. repeat split; assumption.
Qed.

Lemma write_conserves_bytes_witness :
  let self :=
    TextLogStream.Make (BinaryLogStream.Make quiet_log_write 4 "python.stdout")
      "UTF-8" "strict" false [list_byte_of_string "e"] 1 in
  let s := str_of_string "xxf" ++ [LF; LF] ++ str_of_string "g" in
  let after := snd (TextLogStream.write (PyStr s) (self, [])) in
  fst (TextLogStream.write (PyStr s) (self, [])) = Ok (len s)
  /\ exists blocks,
       snd after = [] ++ map (record_of (TextLogStream.buffer self)) blocks
       /\ Forall (fun b => b <> []) blocks
       /\ bytes_join blocks
            ++ bytes_join (TextLogStream._pending_bytes (fst after))
          = bytes_join (TextLogStream._pending_bytes self)
            ++ flat_map utf8_bytes s.
Proof.
  intros self s.
  apply (write_conserves_bytes self [] s).
  - reflexivity.
  - intros tr p tg msg. reflexivity.
  - reflexivity.
Defined.

(** ** Writing in parts *)

Section Parts.

Context `{Codec}.

Variable ok : char -> bool.
Variable enc1 : char -> bytes.
Variable self0 : TextLogStream.t.
Variable tr0 : trace.

Hypothesis Hcodec :
  forall c, forallb ok c = true ->
    str_encode (TextLogStream.encoding self0) (TextLogStream.errors self0) c
    = Ok (flat_map enc1 c).
Hypothesis Hlast : forall x, ok x = true -> endswith (enc1 x) x0a = N.eqb x LF.
Hypothesis Hne : forall x, ok x = true -> enc1 x <> [].
Hypothesis Hplat : platform_accepts self0.
Hypothesis Hwt : TextLogStream.write_through self0 = false.

(** [write] after the text [done]. *)
Lemma write_tracks_from (done s : str) :
  forallb ok s = true ->
  within_limit enc1 done s ->
  hoare (tracks enc1 self0 tr0 done) (TextLogStream.write (PyStr s))
        (fun r w => r = Ok (len s) /\ tracks enc1 self0 tr0 (done ++ s) w).
Proof.
  intros Hok Hlim. unfold TextLogStream.write.
  change (isinstance_str (PyStr s)) with true.
  change (str___str__ (PyStr s)) with s. cbn [negb].
  apply hoare_bind
    with (Q1 := fun r w => r = Ok tt /\ tracks enc1 self0 tr0 (done ++ s) w).
  - eapply hoare_conseq.
    + apply (for_each_line_tracks ok enc1 self0 tr0 Hcodec Hlast Hne Hplat Hwt
               (splitlines_keepends s) done).
      * apply forallb_concat. now rewrite concat_splitlines.
      * apply splitlines_lf_only_last.
      * now rewrite concat_splitlines.
    + auto.
    + intros r w Hw. simpl in Hw. now rewrite concat_splitlines in Hw.
  - intros a. apply hoare_ret. intros w [_ Hw]. auto.
  - intros e w [Habs _]. discriminate.
Qed.

End Parts.

(** Two states that track the same text show the same log, the same pending
    bytes and the same count. *)
Lemma tracks_agree (enc1 : char -> bytes) (self0 : TextLogStream.t)
    (tr0 : trace) (done : str) (w1 w2 : TextLogStream.world) :
  tracks enc1 self0 tr0 done w1 ->
  tracks enc1 self0 tr0 done w2 ->
  snd w1 = snd w2
  /\ bytes_join (TextLogStream._pending_bytes (fst w1))
     = bytes_join (TextLogStream._pending_bytes (fst w2))
  /\ TextLogStream._pending_bytes_count (fst w1)
     = TextLogStream._pending_bytes_count (fst w2).
Proof.
  intros (_ & Hc1 & Hj1 & Ht1) (_ & Hc2 & Hj2 & Ht2).
  split; [congruence |]. split; [congruence |].
  unfold pending_count_ok in Hc1, Hc2.
  rewrite Hc1, Hc2, <- !len_bytes_join. congruence.
Qed.

(** X10: writing a text in two parts is writing it at once.  For a text
    without surrogates whose UTF-8 bytes fit in one record, on a UTF-8
    stream with nothing pending and [write_through] off, [write(s1)]
    followed by [write(s2)] leaves the log, the pending bytes and the count
    that [write(s1 + s2)] leaves. *)
Theorem write_in_two_parts
    (self : TextLogStream.t) (tr : trace) (s1 s2 : str) :
  is_utf8_name (TextLogStream.encoding self) = true ->
  TextLogStream.write_through self = false ->
  idle self ->
  platform_accepts self ->
  forallb (fun c => negb (is_surrogate c)) (s1 ++ s2) = true ->
  len (flat_map utf8_bytes (s1 ++ s2)) <= MAX_BYTES_PER_WRITE ->
  let parts :=
    snd (TextLogStream.write (PyStr s2)
           (snd (TextLogStream.write (PyStr s1) (self, tr)))) in
  let whole := snd (TextLogStream.write (PyStr (s1 ++ s2)) (self, tr)) in
  snd parts = snd whole
  /\ bytes_join (TextLogStream._pending_bytes (fst parts))
     = bytes_join (TextLogStream._pending_bytes (fst whole))
  /\ TextLogStream._pending_bytes_count (fst parts)
     = TextLogStream._pending_bytes_count (fst whole).
Proof.
  intros Hutf Hwt [Hpending Hcount] Hplat Hok Hlen parts whole.
  set (ok := fun c => negb (is_surrogate c)) in *.
  assert (Hcodec : forall c,
             forallb ok c = true ->
             str_encode (TextLogStream.encoding self)
               (TextLogStream.errors self) c
             = Ok (flat_map utf8_bytes c)).
  { intros c Hc. unfold str_encode, python_codec. rewrite Hutf.
    now apply utf8_encode_plain. }
  assert (Hstart : tracks utf8_bytes self tr [] (self, tr)).
  { unfold tracks, pending_count_ok. cbn [fst snd lf_pieces].
    rewrite Hpending, Hcount. simpl. rewrite app_nil_r.
    repeat split; reflexivity. }
  pose proof (write_tracks_from ok utf8_bytes self tr Hcodec
                (fun x _ => utf8_bytes_ends_lf x)
                (fun x _ => utf8_bytes_nonempty x) Hplat Hwt) as Hrun.
  rewrite forallb_app in Hok. apply andb_prop in Hok as [Hok1 Hok2].
  rewrite flat_map_app, len_app in Hlen.
  pose proof (len_nonneg (flat_map utf8_bytes s1)) as Hpos1.
  pose proof (len_nonneg (flat_map utf8_bytes s2)) as Hpos2.
  assert (H1 : tracks utf8_bytes self tr s1
                 (snd (TextLogStream.write (PyStr s1) (self, tr)))).
  { apply (Hrun [] s1 Hok1); [| exact Hstart].
    unfold within_limit. simpl. lia. }
  assert (H2 : tracks utf8_bytes self tr (s1 ++ s2) parts).
  { apply (Hrun s1 s2 Hok2); [| exact H1].
    unfold within_limit.
    pose proof (len_rest_le utf8_bytes s1). lia. }
  assert (H3 : tracks utf8_bytes self tr (s1 ++ s2) whole).
  { apply (Hrun [] (s1 ++ s2)); [| | exact Hstart].
    - now rewrite forallb_app, Hok1, Hok2.
    - unfold within_limit. simpl. rewrite flat_map_app, len_app. lia. }
  exact (tracks_agree utf8_bytes self tr (s1 ++ s2) parts whole H2 H3).
Qed.

Lemma write_in_two_parts_witness :
  let self := stdout_stream "strict" in
  let s1 := str_of_string "d" ++ [LF] ++ str_of_string "e" in
  let s2 := str_of_string "xxf" ++ [LF; LF] ++ str_of_string "g" in
  let parts :=
    snd (TextLogStream.write (PyStr s2)
           (snd (TextLogStream.write (PyStr s1) (self, [])))) in
  let whole := snd (TextLogStream.write (PyStr (s1 ++ s2)) (self, [])) in
  snd parts = snd whole
  /\ bytes_join (TextLogStream._pending_bytes (fst parts))
     = bytes_join (TextLogStream._pending_bytes (fst whole))
  /\ TextLogStream._pending_bytes_count (fst parts)
     = TextLogStream._pending_bytes_count (fst whole).
Proof.
  intros self s1 s2.
  apply (write_in_two_parts self [] s1 s2).
  - reflexivity.
  - reflexivity.
  - split; reflexivity.
  - intros tr p tg msg. reflexivity.
  - reflexivity.
  - vm_compute. discriminate.
Defined.

(** ** Chunks at the limit *)

Lemma gtb_true (n m : Z) : n > m -> (n >? m) = true.
Proof. intros Hgt. destruct (Z.gtb_spec n m); [reflexivity | lia]. Qed.




(** X12: a chunk whose bytes alone pass the limit is logged at once and
    alone.  When the count is right and the platform accepts the calls,
    [_write_chunk] logs what was pending, if any, then the bytes of the chunk
    as one record, and leaves nothing pending. *)
Theorem write_chunk_oversize_alone `{Codec}
    (self : TextLogStream.t) (tr : trace) (c : str) (b : bytes) :
  platform_accepts self ->
  pending_count_ok self ->
  str_encode (TextLogStream.encoding self) (TextLogStream.errors self) c
  = Ok b ->
  len b > MAX_BYTES_PER_WRITE ->
  let pending := bytes_join (TextLogStream._pending_bytes self) in
  let sink := TextLogStream.buffer self in
  TextLogStream._write_chunk c (self, tr)
  = (Ok tt,
     (cleared self,
      (tr ++ match pending with
             | [] => []
             | _ :: _ => [record_of sink pending]
             end)
      ++ [record_of sink b])).
Proof.
  intros Hplat Hcnt Hb Hbig pending sink.
  rewrite write_chunk_eq, Hb.
  assert (Hpos : 0 <= TextLogStream._pending_bytes_count self).
  { unfold pending_count_ok in Hcnt. rewrite Hcnt, <- len_bytes_join.
    apply len_nonneg. }
  replace (TextLogStream._pending_bytes_count self + len b
           >? MAX_BYTES_PER_WRITE) with true
    by (symmetry; apply gtb_true; lia).
  assert (Hfirst : TextLogStream.flush (self, tr)
                   = (Ok tt,
                      (cleared self,
                       tr ++ match pending with
                             | [] => []
                             | _ :: _ => [record_of sink pending]
                             end))).
  { rewrite flush_eq. fold pending. fold sink.
    destruct pending as [| x p]; [now rewrite app_nil_r |].
    cbv zeta. now rewrite Hplat. }
  rewrite Hfirst. cbv zeta. cbn [fst snd].
  change (TextLogStream._pending_bytes_count (appended b (cleared self)))
    with (0 + len b).
  replace (0 + len b >? MAX_BYTES_PER_WRITE) with true
    by (symmetry; apply gtb_true; lia).
  rewrite !orb_true_r.
  assert (Hb_ne : b <> []).
  { intros ->. change (len (@nil byte)) with 0 in Hbig.
    unfold MAX_BYTES_PER_WRITE in Hbig. lia. }
  rewrite (flush_logs_block (appended b (cleared self)) _ b).
  - reflexivity.
  - exact Hplat.
  - simpl. now rewrite app_nil_r.
  - exact Hb_ne.
Qed.

Lemma write_chunk_oversize_alone_witness :
  let self :=
    TextLogStream.Make (BinaryLogStream.Make quiet_log_write 4 "python.stderr")
      "UTF-8" "backslashreplace" false [[x61]] 1 in
  let c := seq_mul [0xDC80%N] 1000 in
  let b := seq_mul (list_byte_of_string "\udc80") 1000 in
  let sink := TextLogStream.buffer self in
  TextLogStream._write_chunk c (self, [])
  = (Ok tt, (cleared self, ([] ++ [record_of sink [x61]]) ++ [record_of sink b])).
Proof.
  intros self c b sink.
  apply (write_chunk_oversize_alone self [] c b).
  - intros tr p tg msg. reflexivity.
  - reflexivity.
  - vm_compute. reflexivity.
  - vm_compute. reflexivity.
Defined.

(** ** init_streams *)

(** [init_streams], case by case. *)
Lemma init_streams_eq
    (android_log_write : trace -> Z -> string -> bytes -> option exn)
    (stdout_prio stderr_prio : Z) (sys : sys_module) :
  init_streams android_log_write stdout_prio stderr_prio sys =
  if truthy (executable sys) then (Ok tt, sys)
  else
    match stream_errors (stdout sys) with
    | Raise e => (Raise e, sys)
    | Ok e1 =>
        let out :=
          LogStream (TextLogStream.__init__ android_log_write stdout_prio
                       "python.stdout" None (Some e1) None) in
        match stream_errors (stderr sys) with
        | Raise e => (Raise e, set_stdout out sys)
        | Ok e2 =>
            (Ok tt,
             Sys (executable sys) out
               (LogStream (TextLogStream.__init__ android_log_write
                             stderr_prio "python.stderr" None (Some e2)
                             None)))
        end
    end.
Proof.
  unfold init_streams, bind, get, lift_res, modify, ret. cbn [fst snd].
  destruct (truthy (executable sys)); [reflexivity |].
  destruct (stream_errors (stdout sys)) as [e1 | e]; [| reflexivity].
  cbn [set_stdout stderr].
  destruct (stream_errors (stderr sys)) as [e2 | e]; reflexivity.
Qed.

(** X13: in an embedded interpreter whose standard streams exist,
    [init_streams] installs two streams with nothing pending that keep the
    error handlers of the streams they replace; whatever is then written to
    or flushed from the new [sys.stdout] reaches the platform with the
    priority given for it and the tag "python.stdout" only, and for
    [sys.stderr] with its priority and the tag "python.stderr". *)
Theorem init_streams_routes `{Codec}
    (android_log_write : trace -> Z -> string -> bytes -> option exn)
    (stdout_prio stderr_prio : Z) (sys : sys_module) (e1 e2 : string) :
  truthy (executable sys) = false ->
  stream_errors (stdout sys) = Ok e1 ->
  stream_errors (stderr sys) = Ok e2 ->
  exists out err,
    init_streams android_log_write stdout_prio stderr_prio sys
    = (Ok tt, Sys (executable sys) (LogStream out) (LogStream err))
    /\ TextLogStream.errors out = e1
    /\ TextLogStream.errors err = e2
    /\ idle out
    /\ idle err
    /\ (forall ops tr,
          exists added,
            snd (run_ops ops (out, tr)) = tr ++ added
            /\ Forall (fun c => call_prio c = stdout_prio
                                /\ call_tag c = "python.stdout"%string)
                 added)
    /\ (forall ops tr,
          exists added,
            snd (run_ops ops (err, tr)) = tr ++ added
            /\ Forall (fun c => call_prio c = stderr_prio
                                /\ call_tag c = "python.stderr"%string)
                 added).
Proof.
  intros Hembedded Hout Herr.
  assert (Hroute : forall (self : TextLogStream.t) ops tr,
             exists added,
               snd (run_ops ops (self, tr)) = tr ++ added
               /\ Forall (fun c =>
                            call_prio c
                            = BinaryLogStream.prio (TextLogStream.buffer self)
                            /\ call_tag c
                               = BinaryLogStream.tag
                                   (TextLogStream.buffer self))
                    added).
  { intros self ops tr.
    destruct (run_ops_logs_from self tr ops (self, tr))
      as (_ & added & Htr & Hall).
    - split; [repeat split |]. exists []. now rewrite app_nil_r.
    - exists added. split; [exact Htr |].
      eapply Forall_impl; [| exact Hall].
      intros c (Hp & Ht & _). now split. }
  eexists. eexists.
  rewrite init_streams_eq, Hembedded, Hout, Herr. cbv zeta.
  split; [reflexivity |].
  repeat split; try reflexivity; intros ops tr; apply Hroute.
Qed.

Lemma init_streams_routes_witness :
  let sys := Sys None (HostStream "strict") (HostStream "backslashreplace") in
  exists out err,
    init_streams quiet_log_write 4 5 sys
    = (Ok tt, Sys None (LogStream out) (LogStream err))
    /\ TextLogStream.errors out = "strict"%string
    /\ TextLogStream.errors err = "backslashreplace"%string
    /\ idle out
    /\ idle err
    /\ (forall ops tr,
          exists added,
            snd (run_ops ops (out, tr)) = tr ++ added
            /\ Forall (fun c => call_prio c = 4
                                /\ call_tag c = "python.stdout"%string)
                 added)
    /\ (forall ops tr,
          exists added,
            snd (run_ops ops (err, tr)) = tr ++ added
            /\ Forall (fun c => call_prio c = 5
                                /\ call_tag c = "python.stderr"%string)
                 added).
Proof.
  intros sys.
  apply (init_streams_routes quiet_log_write 4 5 sys
           "strict" "backslashreplace"); reflexivity.
Defined.

(** X14: [init_streams] can be repeated.  After a call that returned, a
    second call with the same arguments returns and leaves [sys] as the
    first call left it: the streams it builds are those already there,
    with the same error handlers. *)
Theorem init_streams_twice
    (android_log_write : trace -> Z -> string -> bytes -> option exn)
    (stdout_prio stderr_prio : Z) (sys sys1 : sys_module) :
  init_streams android_log_write stdout_prio stderr_prio sys = (Ok tt, sys1) ->
  init_streams android_log_write stdout_prio stderr_prio sys1 = (Ok tt, sys1).
Proof.
  rewrite !init_streams_eq.
  destruct (truthy (executable sys)) eqn:Hexe.
  - intros [= <-]. now rewrite Hexe.
  - destruct (stream_errors (stdout sys)) as [e1 | e]; [| discriminate].
    destruct (stream_errors (stderr sys)) as [e2 | e]; [| discriminate].
    cbv zeta. intros [= <-]. cbn [executable stdout stderr].
    rewrite Hexe. reflexivity.
Qed.

Lemma init_streams_twice_witness :
  let sys := Sys (Some ""%string) (HostStream "strict")
               (HostStream "backslashreplace") in
  let sys1 := snd (init_streams quiet_log_write 4 5 sys) in
  init_streams quiet_log_write 4 5 sys1 = (Ok tt, sys1).
Proof.
  intros sys sys1.
  apply (init_streams_twice quiet_log_write 4 5 sys sys1). reflexivity.
Defined.

(** X15: the two streams are replaced one after the other.  In an embedded
    interpreter with a [sys.stdout] but no [sys.stderr], [init_streams]
    raises the [AttributeError] of [None.errors] after it has installed the
    new [sys.stdout]: the call fails and [sys.stdout] is replaced. *)
Theorem init_streams_fails_halfway
    (android_log_write : trace -> Z -> string -> bytes -> option exn)
    (stdout_prio stderr_prio : Z) (sys : sys_module) (e1 : string) :
  truthy (executable sys) = false ->
  stream_errors (stdout sys) = Ok e1 ->
  stderr sys = NoStream ->
  init_streams android_log_write stdout_prio stderr_prio sys
  = (Raise (OtherError "AttributeError"
              "'NoneType' object has no attribute 'errors'"),
     Sys (executable sys)
       (LogStream (TextLogStream.__init__ android_log_write stdout_prio
                     "python.stdout" None (Some e1) None))
       NoStream).
Proof.
  intros Hembedded Hout Herr.
  rewrite init_streams_eq, Hembedded, Hout, Herr. cbv zeta.
  unfold set_stdout. now rewrite Herr.
Qed.

Lemma init_streams_fails_halfway_witness :
  let sys := Sys None (HostStream "strict") NoStream in
  init_streams quiet_log_write 4 5 sys
  = (Raise (OtherError "AttributeError"
              "'NoneType' object has no attribute 'errors'"),
     Sys None
       (LogStream (TextLogStream.__init__ quiet_log_write 4
                     "python.stdout" None (Some "strict"%string) None))
       NoStream).
Proof.
  intros sys.
  apply (init_streams_fails_halfway quiet_log_write 4 5 sys "strict");
    reflexivity.
Defined.

(** X16: [init_streams] never touches [sys.executable], and when that is
    set, the interpreter not being embedded, it returns with [sys]
    unchanged, whatever the standard streams are. *)
Theorem init_streams_not_embedded
    (android_log_write : trace -> Z -> string -> bytes -> option exn)
    (stdout_prio stderr_prio : Z) (sys : sys_module) :
  executable (snd (init_streams android_log_write stdout_prio stderr_prio sys))
  = executable sys
  /\ (truthy (executable sys) = true ->
      init_streams android_log_write stdout_prio stderr_prio sys
      = (Ok tt, sys)).
Proof.
  rewrite init_streams_eq. split.
  - destruct (truthy (executable sys)); [reflexivity |].
    destruct (stream_errors (stdout sys)); [| reflexivity].
    cbv zeta. destruct (stream_errors (stderr sys)); reflexivity.
  - intros ->. reflexivity.
Qed.

Lemma init_streams_not_embedded_witness :
  let sys := Sys (Some "/usr/bin/python3"%string) NoStream NoStream in
  init_streams quiet_log_write 4 5 sys = (Ok tt, sys).
Proof.
  intros sys.
  apply (init_streams_not_embedded quiet_log_write 4 5 sys). reflexivity.
Defined.

(** ** Flushing by hand *)

(** X17: after a [flush] that returned, nothing is pending, and a second
    [flush] makes no platform call and changes nothing. *)
Theorem flush_twice (w : TextLogStream.world) :
  fst (TextLogStream.flush w) = Ok tt ->
  idle (fst (snd (TextLogStream.flush w)))
  /\ TextLogStream.flush (snd (TextLogStream.flush w))
     = (Ok tt, snd (TextLogStream.flush w)).
Proof.
  destruct w as [self tr]. intros Hret.
  assert (Hcleared : exists tr',
             TextLogStream.flush (self, tr) = (Ok tt, (cleared self, tr'))).
  { rewrite flush_eq in Hret |- *.
    destruct (bytes_join (TextLogStream._pending_bytes self));
      [now exists tr |].
    cbv zeta in Hret |- *.
    destruct (BinaryLogStream.android_log_write _ _ _ _ _);
      [discriminate Hret | eauto]. }
  destruct Hcleared as [tr' ->]. cbn [fst snd].
  split; [apply cleared_is_idle |]. rewrite flush_eq. reflexivity.
Qed.

Lemma flush_twice_witness :
  let self :=
    TextLogStream.Make (BinaryLogStream.Make quiet_log_write 4 "python.stdout")
      "UTF-8" "strict" false [list_byte_of_string "hello"] 5 in
  idle (fst (snd (TextLogStream.flush (self, []))))
  /\ TextLogStream.flush (snd (TextLogStream.flush (self, [])))
     = (Ok tt, snd (TextLogStream.flush (self, []))).
Proof.
  intros self. apply (flush_twice (self, [])). reflexivity.
Defined.

(** X18: short writes are joined until a flush.  Two texts without LF and
    without surrogates whose UTF-8 bytes fit together in one record, written
    one after the other to a UTF-8 stream with nothing pending and
    [write_through] off, cause no platform call; the [flush] that follows
    logs the bytes of both as one record. *)
Theorem writes_join_until_flush
    (self : TextLogStream.t) (tr : trace) (s1 s2 : str) :
  is_utf8_name (TextLogStream.encoding self) = true ->
  TextLogStream.write_through self = false ->
  idle self ->
  platform_accepts self ->
  forallb (fun c => negb (is_surrogate c)) (s1 ++ s2) = true ->
  ~ In LF (s1 ++ s2) ->
  s1 ++ s2 <> [] ->
  len (flat_map utf8_bytes (s1 ++ s2)) <= MAX_BYTES_PER_WRITE ->
  let written :=
    snd (TextLogStream.write (PyStr s2)
           (snd (TextLogStream.write (PyStr s1) (self, tr)))) in
  snd written = tr
  /\ TextLogStream.flush written
     = (Ok tt,
        (self,
         tr ++ [record_of (TextLogStream.buffer self)
                  (flat_map utf8_bytes (s1 ++ s2))])).
Proof.
  intros Hutf Hwt [Hpending Hcount] Hplat Hok Hno Hne Hlen written.
  set (ok := fun c => negb (is_surrogate c)) in *.
  assert (Hcodec : forall c,
             forallb ok c = true ->
             str_encode (TextLogStream.encoding self)
               (TextLogStream.errors self) c
             = Ok (flat_map utf8_bytes c)).
  { intros c Hc. unfold str_encode, python_codec. rewrite Hutf.
    now apply utf8_encode_plain. }
  assert (Hstart : tracks utf8_bytes self tr [] (self, tr)).
  { unfold tracks, pending_count_ok. cbn [fst snd lf_pieces].
    rewrite Hpending, Hcount. simpl. rewrite app_nil_r.
    repeat split; reflexivity. }
  pose proof (write_tracks_from ok utf8_bytes self tr Hcodec
                (fun x _ => utf8_bytes_ends_lf x)
                (fun x _ => utf8_bytes_nonempty x) Hplat Hwt) as Hrun.
  rewrite forallb_app in Hok. apply andb_prop in Hok as [Hok1 Hok2].
  assert (Hlen' := Hlen). rewrite flat_map_app, len_app in Hlen'.
  pose proof (len_nonneg (flat_map utf8_bytes s1)) as Hpos1.
  pose proof (len_nonneg (flat_map utf8_bytes s2)) as Hpos2.
  assert (H1 : tracks utf8_bytes self tr s1
                 (snd (TextLogStream.write (PyStr s1) (self, tr)))).
  { apply (Hrun [] s1 Hok1); [| exact Hstart].
    unfold within_limit. simpl. lia. }
  assert (H2 : tracks utf8_bytes self tr (s1 ++ s2) written).
  { apply (Hrun s1 s2 Hok2); [| exact H1].
    unfold within_limit.
    pose proof (len_rest_le utf8_bytes s1). lia. }
  destruct H2 as (Hcfg & Hcnt & Hjoin & Htr).
  rewrite (lf_pieces_no_lf (s1 ++ s2) Hno) in Hjoin, Htr.
  cbn [fst snd map] in Hjoin, Htr. rewrite app_nil_r in Htr.
  split; [exact Htr |].
  destruct written as [self2 tr2]. cbn [fst snd] in Hcfg, Hcnt, Hjoin, Htr.
  subst tr2.
  assert (Hplat2 : platform_accepts self2).
  { intros tr' p tg msg. destruct Hcfg as (Hbuf & _). rewrite Hbuf.
    apply Hplat. }
  rewrite (flush_logs_block self2 tr (flat_map utf8_bytes (s1 ++ s2))
             Hplat2 Hjoin).
  - destruct Hcfg as (Hbuf & Henc & Herr & Hwt2).
    rewrite Hbuf. do 2 f_equal.
    destruct self as [sink enc err wt pending count].
    destruct self2 as [sink2 enc2 err2 wt2 pending2 count2].
    simpl in *. subst. reflexivity.
  - intros Habs. apply Hne.
    destruct (s1 ++ s2) as [| x rest]; [reflexivity |].
    simpl in Habs. apply app_eq_nil in Habs as [Habs _].
    now apply utf8_bytes_nonempty in Habs.
Qed.

Lemma writes_join_until_flush_witness :
  let self := stdout_stream "backslashreplace" in
  let s1 := str_of_string "hello" in
  let s2 := str_of_string "world" in
  let written :=
    snd (TextLogStream.write (PyStr s2)
           (snd (TextLogStream.write (PyStr s1) (self, [])))) in
  snd written = []
  /\ TextLogStream.flush written
     = (Ok tt,
        (self,
         [] ++ [record_of (TextLogStream.buffer self)
                  (flat_map utf8_bytes (s1 ++ s2))])).
Proof.
  intros self s1 s2.
  apply (writes_join_until_flush self [] s1 s2).
  - reflexivity.
  - reflexivity.
  - split; reflexivity.
  - intros tr p tg msg. reflexivity.
  - reflexivity.
  - vm_compute. intuition discriminate.
  - discriminate.
  - vm_compute. discriminate.
Defined.

(** ** Exceptions of the platform *)

Section Failures.

Context `{Codec}.

Variable self0 : TextLogStream.t.

Lemma flush_failure :
  hoare (configured_as self0) TextLogStream.flush
        (fun r w => configured_as self0 w /\ failed_on_last_call self0 r w).
Proof.
  intros [self tr] Hcfg. unfold configured_as in *. cbn [fst] in Hcfg.
  assert (Hbuf : TextLogStream.buffer self = TextLogStream.buffer self0)
    by apply Hcfg.
  rewrite flush_eq.
  destruct (bytes_join (TextLogStream._pending_bytes self)) as [| x block].
  - split; [exact Hcfg | exact I].
  - cbv zeta.
    destruct (BinaryLogStream.android_log_write _ _ _ _ _) as [e |] eqn:Hcall;
      cbn [fst snd]; (split; [exact Hcfg |]); [| exact I].
    exists tr, (record_of (TextLogStream.buffer self) (x :: block)).
    split; [reflexivity |]. rewrite <- Hbuf. exact Hcall.
Qed.

Lemma write_chunk_failure (c : str) :
  (exists b,
     str_encode (TextLogStream.encoding self0) (TextLogStream.errors self0) c
     = Ok b) ->
  hoare (configured_as self0) (TextLogStream._write_chunk c)
        (fun r w => configured_as self0 w /\ failed_on_last_call self0 r w).
Proof.
  intros [b Hb] [self tr] Hcfg. rewrite write_chunk_eq.
  assert (Hcfg' : same_config self0 self) by exact Hcfg.
  destruct Hcfg' as (Hbuf & Henc & Herr & Hwt).
  rewrite Henc, Herr, Hb.
  set (m := if TextLogStream._pending_bytes_count self + len b
                >? MAX_BYTES_PER_WRITE
             then TextLogStream.flush else ret tt).
  assert (H1 : configured_as self0 (snd (m (self, tr)))
               /\ failed_on_last_call self0 (fst (m (self, tr)))
                    (snd (m (self, tr)))).
  { subst m. destruct (_ >? _).
    - apply (flush_failure (self, tr) Hcfg).
    - split; [exact Hcfg | exact I]. }
  destruct (m (self, tr)) as [[u | e] [self1 tr1]]; [| exact H1].
  cbn [fst snd] in H1 |- *. cbv zeta.
  assert (H2 : configured_as self0 (appended b self1, tr1)) by apply H1.
  destruct (_ || _ || _).
  - apply (flush_failure (appended b self1, tr1) H2).
  - split; [exact H2 | exact I].
Qed.

Lemma while_line_failure (fuel : nat) :
  forall line : str,
    (length line <= fuel)%nat ->
    encodes_parts self0 line ->
    hoare (configured_as self0) (TextLogStream.while_line fuel line)
          (fun r w => configured_as self0 w /\ failed_on_last_call self0 r w).
Proof.
  induction fuel as [| fuel IH]; intros [| c line] Hlen Henc;
    try (apply hoare_ret; intros w Hw; split; [exact Hw | exact I]);
    [simpl in Hlen; lia |].
  cbn [TextLogStream.while_line].
  apply hoare_bind
    with (Q1 := fun r w => configured_as self0 w
                           /\ failed_on_last_call self0 r w).
  - apply write_chunk_failure. apply Henc, segment_slice_to.
  - intros a. eapply hoare_conseq.
    + apply IH.
      * pose proof (length_slice_from (c :: line)) as Hlt.
        specialize (Hlt ltac:(discriminate)). lia.
      * intros x Hx. apply Henc.
        eapply segment_trans; [exact Hx | apply segment_slice_from].
    + intros w [Hw _]. exact Hw.
    + auto.
  - intros e w Hw. exact Hw.
Qed.

Lemma for_each_line_failure (lines : list str) :
  Forall (encodes_parts self0) lines ->
  hoare (configured_as self0)
        (for_each lines
           (fun line => TextLogStream.while_line (length line) line))
        (fun r w => configured_as self0 w /\ failed_on_last_call self0 r w).
Proof.
  induction lines as [| line lines IH]; intros Henc.
  - apply hoare_ret. intros w Hw. split; [exact Hw | exact I].
  - inversion Henc as [| ? ? Henc1 Henc2]; subst. cbn [for_each].
    apply hoare_bind
      with (Q1 := fun r w => configured_as self0 w
                             /\ failed_on_last_call self0 r w).
    + apply while_line_failure; [lia | exact Henc1].
    + intros a. eapply hoare_conseq.
      * apply (IH Henc2).
      * intros w [Hw _]. exact Hw.
      * auto.
    + intros e w Hw. exact Hw.
Qed.

End Failures.

(** X19: the platform is the only source of failure, and a failed call is
    the last one.  When the codec encodes the parts of the text, [write]
    either returns the length of the text, or raises the exception that the
    platform raised on the last call made: no call follows a failed one. *)
Theorem write_fails_only_with_platform `{Codec}
    (self : TextLogStream.t) (tr : trace) (s : str) :
  encodes_parts self s ->
  let result := TextLogStream.write (PyStr s) (self, tr) in
  match fst result with
  | Ok n => n = len s
  | Raise e =>
      exists tr' c,
        snd (snd result) = tr' ++ [c]
        /\ BinaryLogStream.android_log_write (TextLogStream.buffer self) tr'
             (call_prio c) (call_tag c) (call_msg c)
           = Some e
  end.
Proof.
  intros Henc result. subst result. unfold TextLogStream.write.
  change (isinstance_str (PyStr s)) with true.
  change (str___str__ (PyStr s)) with s. cbn [negb].
  assert (Hlines : Forall (encodes_parts self) (splitlines_keepends s)).
  { apply Forall_forall. intros line Hline x Hx. apply Henc.
    eapply segment_trans; [exact Hx | now apply line_is_segment]. }
  pose proof (for_each_line_failure self (splitlines_keepends s) Hlines
                (self, tr)) as Hrun.
  specialize (Hrun ltac:(repeat split)). cbv beta in Hrun.
  unfold bind.
  destruct (for_each (splitlines_keepends s)
              (fun line => TextLogStream.while_line (length line) line)
              (self, tr)) as [[u | e] w].
  - reflexivity.
  - apply Hrun.
Qed.

Lemma write_fails_only_with_platform_witness :
  let self :=
    TextLogStream.Make (BinaryLogStream.Make flaky_log_write 4 "python.stdout")
      "UTF-8" "backslashreplace" false [] 0 in
  let s := str_of_string "a" ++ [LF] ++ str_of_string "b" ++ [LF] in
  let result := TextLogStream.write (PyStr s) (self, []) in
  match fst result with
  | Ok n => n = len s
  | Raise e =>
      exists tr' c,
        snd (snd result) = tr' ++ [c]
        /\ BinaryLogStream.android_log_write (TextLogStream.buffer self) tr'
             (call_prio c) (call_tag c) (call_msg c)
           = Some e
  end.
Proof.
  intros self s.
  apply (write_fails_only_with_platform self [] s).
  intros c _. apply utf8_backslashreplace_total.
Defined.

(** * Chunks, groups and carriage returns *)

(** ** Write-through, chunk by chunk *)

(** With a platform that accepts the call, [flush] logs what is pending and
    empties the buffer. *)
Lemma flush_accepted_eq (self : TextLogStream.t) (tr : trace) :
  platform_accepts self ->
  TextLogStream.flush (self, tr)
  = (Ok tt,
     (cleared self,
      tr ++ block_record (TextLogStream.buffer self)
              (bytes_join (TextLogStream._pending_bytes self)))).
Proof.
  intros Hplat. rewrite flush_eq.
  destruct (bytes_join (TextLogStream._pending_bytes self)) as [| x block].
  - simpl. now rewrite app_nil_r.
  - cbv zeta. now rewrite Hplat.
Qed.

(** With [write_through] set, [_write_chunk] ends with a flush whatever is
    pending. *)
Lemma write_chunk_through_any `{Codec} (self : TextLogStream.t) (tr : trace)
    (c : str) (b : bytes) :
  TextLogStream.write_through self = true ->
  platform_accepts self ->
  encoded_as self c b ->
  TextLogStream._write_chunk c (self, tr)
  = (Ok tt, (cleared self, tr ++ through_records self b)).
Proof.
  intros Hwt Hplat Henc. unfold encoded_as in Henc.
  rewrite write_chunk_eq, Henc. unfold through_records.
  destruct (TextLogStream._pending_bytes_count self + len b
            >? MAX_BYTES_PER_WRITE).
  - rewrite (flush_accepted_eq self tr Hplat). cbv zeta. cbn [fst snd].
    change (TextLogStream.write_through (appended b (cleared self)))
      with (TextLogStream.write_through self).
    rewrite Hwt. cbn [orb].
    rewrite flush_accepted_eq by exact Hplat.
    change (cleared (appended b (cleared self))) with (cleared self).
    change (TextLogStream.buffer (appended b (cleared self)))
      with (TextLogStream.buffer self).
    change (bytes_join (TextLogStream._pending_bytes
                          (appended b (cleared self))))
      with (bytes_join ([] ++ [b])).
    rewrite bytes_join_snoc. cbn [bytes_join concat app].
    now rewrite app_assoc.
  - unfold ret. cbv zeta. cbn [fst snd].
    change (TextLogStream.write_through (appended b self))
      with (TextLogStream.write_through self).
    rewrite Hwt. cbn [orb].
    rewrite flush_accepted_eq by exact Hplat.
    change (cleared (appended b self)) with (cleared self).
    change (TextLogStream.buffer (appended b self))
      with (TextLogStream.buffer self).
    change (bytes_join (TextLogStream._pending_bytes (appended b self)))
      with (bytes_join (TextLogStream._pending_bytes self ++ [b])).
    now rewrite bytes_join_snoc.
Qed.

(** With nothing pending the chunk makes a record of its own. *)
Lemma through_records_idle (self : TextLogStream.t) (b : bytes) :
  idle self ->
  through_records self b = block_record (TextLogStream.buffer self) b.
Proof.
  intros [Hpending Hcount]. unfold through_records.
  rewrite Hpending, Hcount. cbn [bytes_join concat block_record app].
  now destruct (_ >? _).
Qed.

(** [for] over a list put together from two. *)
Lemma for_each_app {S A : Type} (xs ys : list A) (body : A -> M S unit)
    (w : S) :
  for_each (xs ++ ys) body w
  = (for_each xs body ;; for_each ys body)%monad w.
Proof.
  revert w. induction xs as [| x xs IH]; intros w.
  - reflexivity.
  - cbn [app for_each]. unfold bind.
    destruct (body x w) as [[u | e] w1]; [| reflexivity].
    rewrite IH. reflexivity.
Qed.

(** The loop over a line hands its chunks to [_write_chunk], one after the
    other. *)
Lemma while_line_chunks `{Codec} (fuel : nat) :
  forall (line : str) (w : TextLogStream.world),
    (length line <= fuel)%nat ->
    TextLogStream.while_line fuel line w
    = for_each (line_chunks fuel line) TextLogStream._write_chunk w.
Proof.
  induction fuel as [| fuel IH]; intros [| c l] w Hlen; try reflexivity.
  - simpl in Hlen. lia.
  - cbn [TextLogStream.while_line line_chunks for_each]. unfold bind.
    destruct (TextLogStream._write_chunk _ w) as [[u | e] w1];
      [| reflexivity].
    apply IH.
    pose proof (length_slice_from (c :: l) ltac:(discriminate)). lia.
Qed.

Lemma for_each_line_chunks `{Codec} (lines : list str)
    (w : TextLogStream.world) :
  for_each lines (fun line => TextLogStream.while_line (length line) line) w
  = for_each (flat_map (fun line => line_chunks (length line) line) lines)
      TextLogStream._write_chunk w.
Proof.
  revert w. induction lines as [| line lines IH]; intros w; [reflexivity |].
  cbn [for_each flat_map]. rewrite for_each_app. unfold bind.
  rewrite while_line_chunks by lia.
  destruct (for_each (line_chunks (length line) line) _ w) as [[u | e] w1];
    [apply IH | reflexivity].
Qed.

(** [write] hands the chunks of the text to [_write_chunk], one after the
    other, and returns the length of the text. *)
Lemma write_as_chunks `{Codec} (s : str) (w : TextLogStream.world) :
  TextLogStream.write (PyStr s) w
  = (for_each (write_chunks s) TextLogStream._write_chunk ;; ret (len s))%monad
      w.
Proof.
  unfold TextLogStream.write.
  change (isinstance_str (PyStr s)) with true.
  change (str___str__ (PyStr s)) with s. cbn [negb].
  unfold bind. rewrite for_each_line_chunks. reflexivity.
Qed.

(** Chunks written through to a stream with nothing pending: a record for
    each. *)
Lemma for_each_chunk_through_idle `{Codec} (self : TextLogStream.t)
    (chunks : list str) (blocks : list bytes) :
  TextLogStream.write_through self = true ->
  platform_accepts self ->
  idle self ->
  Forall2 (encoded_as self) chunks blocks ->
  forall tr,
    for_each chunks TextLogStream._write_chunk (self, tr)
    = (Ok tt,
       (self, tr ++ flat_map (block_record (TextLogStream.buffer self)) blocks)).
Proof.
  intros Hwt Hplat Hidle Henc.
  induction Henc as [| c b chunks blocks Hc _ IH]; intros tr.
  - simpl. now rewrite app_nil_r.
  - cbn [for_each flat_map]. unfold bind.
    rewrite (write_chunk_through_any self tr c b Hwt Hplat Hc).
    rewrite through_records_idle by exact Hidle.
    destruct Hidle as [Hpending Hcount].
    rewrite (cleared_idle self Hpending Hcount).
    rewrite IH. now rewrite app_assoc.
Qed.

(** Chunks written through, whatever is pending. *)
Lemma for_each_chunk_through `{Codec} (self : TextLogStream.t) (tr : trace)
    (chunks : list str) (blocks : list bytes) :
  TextLogStream.write_through self = true ->
  platform_accepts self ->
  Forall2 (encoded_as self) chunks blocks ->
  for_each chunks TextLogStream._write_chunk (self, tr)
  = (Ok tt,
     match blocks with
     | [] => (self, tr)
     | b :: blocks' =>
         (cleared self,
          tr ++ through_records self b
             ++ flat_map (block_record (TextLogStream.buffer self)) blocks')
     end).
Proof.
  intros Hwt Hplat Henc.
  destruct Henc as [| c b chunks blocks Hc Henc]; [reflexivity |].
  cbn [for_each]. unfold bind.
  rewrite (write_chunk_through_any self tr c b Hwt Hplat Hc).
  rewrite (for_each_chunk_through_idle (cleared self) chunks blocks).
  - now rewrite app_assoc.
  - exact Hwt.
  - exact Hplat.
  - apply cleared_is_idle.
  - exact Henc.
Qed.

(** C6: with [write_through] set, every chunk is flushed right after it is
    appended to the pending buffer, whatever is pending.  One call of
    [_write_chunk] leaves nothing pending and logs the pending bytes with
    those of the chunk: in one record, or in two when together they would
    pass the limit.  So [write] logs a record for each chunk of the text, not
    one for each call or each line.  And two writes of one character each, to
    a stream with nothing pending, produce two platform records, not one. *)
Theorem write_through_flushes_every_chunk `{Codec}
    (self : TextLogStream.t) (tr : trace) :
  TextLogStream.write_through self = true ->
  platform_accepts self ->
  let sink := TextLogStream.buffer self in
  (forall (c : str) (b : bytes),
     encoded_as self c b ->
     TextLogStream._write_chunk c (self, tr)
     = (Ok tt, (cleared self, tr ++ through_records self b)))
  /\ (forall (s : str) (blocks : list bytes),
        Forall2 (encoded_as self) (write_chunks s) blocks ->
        TextLogStream.write (PyStr s) (self, tr)
        = (Ok (len s),
           match blocks with
           | [] => (self, tr)
           | b :: blocks' =>
               (cleared self,
                tr ++ through_records self b
                   ++ flat_map (block_record sink) blocks')
           end))
  /\ (forall (c1 c2 : char) (b1 b2 : bytes),
        idle self ->
        encoded_as self [c1] b1 ->
        b1 <> [] ->
        encoded_as self [c2] b2 ->
        b2 <> [] ->
        TextLogStream.write (PyStr [c1]) (self, tr)
        = (Ok 1, (self, tr ++ [record_of sink b1]))
        /\ TextLogStream.write (PyStr [c2]) (self, tr ++ [record_of sink b1])
           = (Ok 1, (self, (tr ++ [record_of sink b1]) ++ [record_of sink b2]))).
Proof.
  intros Hwt Hplat sink. split; [| split].
  - intros c b Hc. now apply write_chunk_through_any.
  - intros s blocks Henc. rewrite write_as_chunks. unfold bind.
    rewrite (for_each_chunk_through self tr (write_chunks s) blocks Hwt Hplat
               Henc).
    reflexivity.
  - intros c1 c2 b1 b2 Hidle Hb1 Hne1 Hb2 Hne2.
    assert (Hone : forall (c : char) (b : bytes) (tr' : trace),
               encoded_as self [c] b -> b <> [] ->
               TextLogStream.write (PyStr [c]) (self, tr')
               = (Ok 1, (self, tr' ++ [record_of sink b]))).
    { intros c b tr' Hb Hne. rewrite write_single_char.
      rewrite (write_chunk_through_any self tr' [c] b Hwt Hplat Hb).
      rewrite through_records_idle by exact Hidle.
      destruct Hidle as [Hpending Hcount].
      rewrite (cleared_idle self Hpending Hcount).
      destruct b as [| x b]; [congruence | reflexivity]. }
    split; now apply Hone.
Qed.

Lemma write_through_flushes_every_chunk_witness :
  let sink := BinaryLogStream.Make quiet_log_write 4 "python.stdout" in
  let busy :=
    TextLogStream.Make sink "UTF-8" "strict" true [list_byte_of_string "ab"] 2
  in
  let new :=
    TextLogStream.__init__ quiet_log_write ANDROID_LOG_INFO "python.stdout"
      None None (Some true) in
  let x n := seq_mul (list_byte_of_string "x") n in
  let record b := LogCall 4 "python.stdout" b in
  TextLogStream._write_chunk (str_of_string "c") (busy, [])
  = (Ok tt, (cleared busy, [record (list_byte_of_string "abc")]))
  /\ TextLogStream.write (PyStr (seq_mul (str_of_string "x") 1500)) (busy, [])
     = (Ok 1500,
        (cleared busy,
         [record (list_byte_of_string "ab" ++ x 1000%nat); record (x 500%nat)]))
  /\ TextLogStream.write (PyStr [97%N]) (new, [])
     = (Ok 1, (new, [record (list_byte_of_string "a")]))
  /\ TextLogStream.write (PyStr [98%N])
       (new, [record (list_byte_of_string "a")])
     = (Ok 1,
        (new, [record (list_byte_of_string "a");
               record (list_byte_of_string "b")])).
Proof.
  intros sink busy new x record.
  destruct (write_through_flushes_every_chunk busy []) as (Hchunk & Hwrite & _).
  { reflexivity. }
  { intros tr p tg msg. reflexivity. }
  destruct (write_through_flushes_every_chunk new []) as (_ & _ & Htwo).
  { reflexivity. }
  { intros tr p tg msg. reflexivity. }
  split; [| split].
  - apply (Hchunk (str_of_string "c") (list_byte_of_string "c")).
    reflexivity.
  - etransitivity.
    + apply (Hwrite (seq_mul (str_of_string "x") 1500)
               [x 1000%nat; x 500%nat]).
      assert (Hcut : write_chunks (seq_mul (str_of_string "x") 1500)
                     = [seq_mul (str_of_string "x") 1000;
                        seq_mul (str_of_string "x") 500])
        by (vm_compute; reflexivity).
      rewrite Hcut.
      constructor; [vm_compute; reflexivity |].
      constructor; [vm_compute; reflexivity |].
      constructor.
    + vm_compute; reflexivity.
  - apply (Htwo 97%N 98%N (list_byte_of_string "a") (list_byte_of_string "b"));
      try reflexivity; try discriminate.
    split; reflexivity.
Defined.

(** ** The UTF-8 codec, character by character *)





(** ** Lines after the replacement of CR LF *)









(** ** Lines within one chunk *)




(** ** Pieces within the limit *)



Lemma len_zero_nil {A : Type} (l : list A) : len l = 0 -> l = [].
Proof. destruct l; [reflexivity | discriminate]. Qed.







Section PendingPieces.

Context `{Codec}.

Variable ok : char -> bool.
Variable enc1 : char -> bytes.
Variable self0 : TextLogStream.t.
Variable tr0 : trace.
Variable pending0 : bytes.

Hypothesis Hcodec :
  forall c, forallb ok c = true ->
    str_encode (TextLogStream.encoding self0) (TextLogStream.errors self0) c
    = Ok (flat_map enc1 c).
Hypothesis Hlast : forall x, ok x = true -> endswith (enc1 x) x0a = N.eqb x LF.
Hypothesis Hne : forall x, ok x = true -> enc1 x <> [].
Hypothesis Hplat : platform_accepts self0.
Hypothesis Hwt : TextLogStream.write_through self0 = false.









End PendingPieces.



Section ThroughLines.

Context `{Codec}.

Variable ok : char -> bool.
Variable enc1 : char -> bytes.
Variable self0 : TextLogStream.t.
Variable pending0 : bytes.

Hypothesis Hcodec :
  forall c, forallb ok c = true ->
    str_encode (TextLogStream.encoding self0) (TextLogStream.errors self0) c
    = Ok (flat_map enc1 c).
Hypothesis Hne : forall x, ok x = true -> enc1 x <> [].
Hypothesis Hplat : platform_accepts self0.


End ThroughLines.

(** ** The chunks of a text *)





(** ** Replacing CR LF in a text put together from two *)





Lemma app_eq_len {A : Type} (a a' b b' : list A) :
  a ++ b = a' ++ b' -> len a = len a' -> a = a' /\ b = b'.
Proof.
  intros Heq Hlen. apply app_eq_app in Heq as (l & [[-> ->] | [-> ->]]);
    rewrite len_app in Hlen;
    assert (Hl : l = []) by (apply len_zero_nil; lia);
    subst l; rewrite ?app_nil_r; auto.
Qed.


(** ** The records of a text, group by group *)


Section Grouping.

Context `{Codec}.

Variable ok : char -> bool.
Variable enc1 : char -> bytes.
Variable self0 : TextLogStream.t.
Variable tr0 : trace.
Variable pending0 : bytes.

Hypothesis Hcodec :
  forall c, forallb ok c = true ->
    str_encode (TextLogStream.encoding self0) (TextLogStream.errors self0) c
    = Ok (flat_map enc1 c).
Hypothesis Hplat : platform_accepts self0.





End Grouping.

(** ** The groups of a text with CR LF replaced *)


Section Twins.

Variable ok : char -> bool.
Variable enc1 : char -> bytes.
Variable pending0 : bytes.
Variable wt : bool.

Hypothesis Hlast : forall x, ok x = true -> endswith (enc1 x) x0a = N.eqb x LF.
Hypothesis Hne : forall x, ok x = true -> enc1 x <> [].








End Twins.

(** The groups and the pending text make up the text taken. *)
Section Partition.

Variable ok : char -> bool.
Variable enc1 : char -> bytes.
Variable pending0 : bytes.
Variable wt : bool.

Hypothesis Hne : forall x, ok x = true -> enc1 x <> [].





End Partition.

(** ** Carriage returns *)



